(** * SpokyAI voice-command pipeline: a shallow embedding of
    [SpokyAI/ai/voice_recognition.py] and the properties of its command
    router, streaming decode loop and lifecycle controller. *)

From Stdlib Require Import List String Ascii ZArith Bool Arith Lia.
Import ListNotations.
Open Scope string_scope.
Open Scope list_scope.

Set Implicit Arguments.

(** ** Python strings

    A [str] is modelled as a [string] whose characters are the code points
    below 256.  [lower], [strip] and the [in] operator follow CPython on
    that range. *)
Module PyStr.

Definition between (lo hi n : nat) : bool := (lo <=? n)%nat && (n <=? hi)%nat.

(** [str.isupper] on one code point: A-Z and the Latin-1 capitals. *)
Definition is_upper (c : ascii) : bool :=
  let n := nat_of_ascii c in
  between 65 90 n || (between 192 222 n && negb (n =? 215)%nat).

Definition lower_char (c : ascii) : ascii :=
  if is_upper c then ascii_of_nat (nat_of_ascii c + 32) else c.

Fixpoint lower (s : string) : string :=
  match s with
  | EmptyString => EmptyString
  | String c s' => String (lower_char c) (lower s')
  end.

(** [str.isspace] on one code point. *)
Definition isspace (c : ascii) : bool :=
  let n := nat_of_ascii c in
  between 9 13 n || between 28 32 n || (n =? 133)%nat || (n =? 160)%nat.

Fixpoint lstrip (s : string) : string :=
  match s with
  | EmptyString => EmptyString
  | String c s' => if isspace c then lstrip s' else s
  end.

Fixpoint rstrip (s : string) : string :=
  match s with
  | EmptyString => EmptyString
  | String c s' =>
      match rstrip s' with
      | EmptyString => if isspace c then EmptyString else String c EmptyString
      | r => String c r
      end
  end.

Definition strip (s : string) : string := rstrip (lstrip s).

(** [sub in s]: [sub] occurs in [s] at some offset. *)
Fixpoint str_in (sub s : string) : bool :=
  prefix sub s ||
  match s with
  | EmptyString => false
  | String _ s' => str_in sub s'
  end.

(** Truth value of a [str]: non-empty. *)
Definition truthy (s : string) : bool :=
  match s with EmptyString => false | _ => true end.

(** [sep.join(parts)]. *)
Fixpoint join (sep : string) (parts : list string) : string :=
  match parts with
  | [] => EmptyString
  | [p] => p
  | p :: rest => (p ++ sep ++ join sep rest)%string
  end.

End PyStr.

(** ** Python dictionaries

    A [dict] keeps its keys in order of first insertion; assigning to a key
    that is present overwrites the value where it stands. *)
Module PyDict.
Section WithValue.
Variable V : Type.

Definition dict : Type := list (string * V).

Definition empty : dict := [].

(** [d[k]] / [d.get(k)]. *)
Fixpoint get (k : string) (d : dict) : option V :=
  match d with
  | [] => None
  | (k', v) :: d' => if String.eqb k k' then Some v else get k d'
  end.

(** [k in d]. *)
Definition mem (k : string) (d : dict) : bool :=
  match get k d with Some _ => true | None => false end.

(** [d[k] = v]. *)
Fixpoint set (k : string) (v : V) (d : dict) : dict :=
  match d with
  | [] => [(k, v)]
  | (k', v') :: d' =>
      if String.eqb k k' then (k', v) :: d' else (k', v') :: set k v d'
  end.

(** [d.items()], in iteration order. *)
Definition items (d : dict) : list (string * V) := d.

Definition keys (d : dict) : list string := map fst d.

End WithValue.
End PyDict.

Import PyStr.

(** ** Data model *)

Definition bytes : Type := list Byte.byte.

(** The decoder's JSON object after [json.loads], reduced to the two keys
    the pipeline reads; [None] stands for an absent key. *)
Record RecognitionResult : Type := mkResult
  { text : option string;
    partial : option string }.

(** Truth value of [d.get(key)] for a string-valued key. *)
Definition get_truthy (o : option string) : bool :=
  match o with
  | Some s => truthy s
  | None => false
  end.

(** [result.get('text', '')]. *)
Definition get_text_default (r : RecognitionResult) : string :=
  match text r with
  | Some s => s
  | None => EmptyString
  end.

Inductive Level : Type := DEBUG | INFO | WARNING | ERROR.

Inductive Exn : Type := Exc (name : string).

(** Exception classes, told by name.  [queue.Empty] is what a timed-out
    [get] raises; [SystemExit], [KeyboardInterrupt] and [GeneratorExit]
    derive from [BaseException] only, every other name stands for a
    subclass of [Exception]. *)
Definition is_queue_Empty (e : Exn) : bool :=
  match e with Exc name => String.eqb name "queue.Empty" end.

Definition is_Exception (e : Exn) : bool :=
  match e with
  | Exc name =>
      negb (String.eqb name "SystemExit"
            || String.eqb name "KeyboardInterrupt"
            || String.eqb name "GeneratorExit")
  end.

(** The messages the module hands to its logger, one constructor per call
    site. *)
Inductive LogMsg : Type :=
| RecognizerNotInitialized
| AlreadyListening
| StartedListening
| AudioStreamStatus (status : Z)
| RecognitionResultMsg (r : RecognitionResult)
| PartialResultMsg (p : string)
| ErrorProcessingAudio (e : Exn)
| StoppedListening
| AudioFileMustBeMonoPCM
| CleanupCompleted
| RegisteredCommand (command : string)
| ProcessingCommand (t : string)
| ExecutingCommand (t : string)
| ExecutingPartialMatch (command : string)
| NoCommandFound (t : string).

Inductive Outcome (A : Type) : Type :=
| Returned (a : A)
| Raised (e : Exn).
Arguments Returned {A} a.
Arguments Raised {A} e.

(** The external speech decoder ([vosk.KaldiRecognizer]) as a capability:
    an opaque state with the four operations the pipeline calls.  By its
    contract each operation returns, and what it returns is well-formed
    JSON, taken here as already parsed. *)
Class KaldiRecognizer (D : Type) : Type :=
  { AcceptWaveform : D -> bytes -> bool * D;
    Result : D -> RecognitionResult * D;
    PartialResult : D -> RecognitionResult * D;
    FinalResult : D -> RecognitionResult * D }.

(** The capture library ([pyaudio.PyAudio]) seen from the pipeline:
    whether the input device can be opened, how many streams are open, and
    whether the library was terminated. *)
Record PyAudio : Type := mkPyAudio
  { input_device_ok : bool;
    open_streams : nat;
    terminated : bool }.

Record Stream : Type := mkStream
  { stream_active : bool }.

(** A container opened by [wave.open(path, "rb")]. *)
Record Wave_read : Type := mkWave
  { nchannels : Z;
    sampwidth : Z;
    framerate : Z;
    wave_data : bytes }.

Section Pipeline.

Context {Handler : Type} {D : Type} `{KaldiRecognizer D}.

(** The trace: what the module's own code does at its call sites, in
    order: a line handed to its logger, a result handed to the callback, a
    handler invoked. *)
Inductive Event : Type :=
| Log (lvl : Level) (msg : LogMsg)
| Callback (r : RecognitionResult)
| Invoke (h : Handler).

(** The heap: the attributes of the one [VoiceRecognition] object and of
    the [VoiceCommandHandler] that refers to it, and the worker threads
    started so far. *)
Record World : Type := mkWorld
  { sample_rate : Z;
    buffer_size : Z;
    is_listening : bool;
    audio_queue : list bytes;
    recognizer : option D;
    audio : PyAudio;
    stream : option Stream;
    processing_thread : option nat;
    threads : nat;
    commands : PyDict.dict Handler }.

(** Computations: state passing over the heap, an outcome that is a
    return value or a raised exception, and the events emitted. *)
Definition M (A : Type) : Type := World -> Outcome A * World * list Event.

Definition ret {A} (a : A) : M A := fun w => (Returned a, w, []).

Definition raise {A} (e : Exn) : M A := fun w => (Raised e, w, []).

Definition bind {A B} (m : M A) (k : A -> M B) : M B :=
  fun w =>
    match m w with
    | (Returned a, w1, ev1) =>
        let '(o, w2, ev2) := k a w1 in (o, w2, ev1 ++ ev2)
    | (Raised e, w1, ev1) => (Raised e, w1, ev1)
    end.

(** [try: m except Exception as e: h e]; what is not an [Exception]
    goes on to the caller. *)
Definition try_except {A} (m : M A) (h : Exn -> M A) : M A :=
  fun w =>
    match m w with
    | (Returned a, w1, ev1) => (Returned a, w1, ev1)
    | (Raised e, w1, ev1) =>
        if is_Exception e
        then let '(o, w2, ev2) := h e w1 in (o, w2, ev1 ++ ev2)
        else (Raised e, w1, ev1)
    end.

(** [try: m except queue.Empty: continue], inside a loop body that ends
    with the [try]. *)
Definition except_queue_Empty (m : M unit) : M unit :=
  fun w =>
    match m w with
    | (Returned a, w1, ev1) => (Returned a, w1, ev1)
    | (Raised e, w1, ev1) =>
        if is_queue_Empty e then (Returned tt, w1, ev1)
        else (Raised e, w1, ev1)
    end.

Definition emit (e : Event) : M unit := fun w => (Returned tt, w, [e]).

Definition logger (lvl : Level) (msg : LogMsg) : M unit := emit (Log lvl msg).

Definition gets {A} (f : World -> A) : M A := fun w => (Returned (f w), w, []).

Definition modify (f : World -> World) : M unit :=
  fun w => (Returned tt, f w, []).

End Pipeline.

Arguments Event : clear implicits.
Arguments World : clear implicits.
Arguments M : clear implicits.

Declare Scope py_scope.
Delimit Scope py_scope with py.
Notation "x <- m ;; k" := (bind m (fun x => k))
  (at level 100, m at next level, right associativity) : py_scope.
Notation "m ;; k" := (bind m (fun _ => k))
  (at level 100, right associativity) : py_scope.
Open Scope py_scope.

(** ** Attribute assignment *)
Section Setters.

Context {Handler : Type} {D : Type}.
Local Abbreviation World := (World Handler D).

Definition set_is_listening (b : bool) (w : World) : World :=
  mkWorld (sample_rate w) (buffer_size w) b (audio_queue w) (recognizer w)
          (audio w) (stream w) (processing_thread w) (threads w) (commands w).

Definition set_audio_queue (q : list bytes) (w : World) : World :=
  mkWorld (sample_rate w) (buffer_size w) (is_listening w) q (recognizer w)
          (audio w) (stream w) (processing_thread w) (threads w) (commands w).

Definition set_recognizer (r : option D) (w : World) : World :=
  mkWorld (sample_rate w) (buffer_size w) (is_listening w) (audio_queue w) r
          (audio w) (stream w) (processing_thread w) (threads w) (commands w).

Definition set_audio (a : PyAudio) (w : World) : World :=
  mkWorld (sample_rate w) (buffer_size w) (is_listening w) (audio_queue w)
          (recognizer w) a (stream w) (processing_thread w) (threads w)
          (commands w).

Definition set_stream (s : option Stream) (w : World) : World :=
  mkWorld (sample_rate w) (buffer_size w) (is_listening w) (audio_queue w)
          (recognizer w) (audio w) s (processing_thread w) (threads w)
          (commands w).

Definition set_thread (t : option nat) (n : nat) (w : World) : World :=
  mkWorld (sample_rate w) (buffer_size w) (is_listening w) (audio_queue w)
          (recognizer w) (audio w) (stream w) t n (commands w).

Definition set_commands (c : PyDict.dict Handler) (w : World) : World :=
  mkWorld (sample_rate w) (buffer_size w) (is_listening w) (audio_queue w)
          (recognizer w) (audio w) (stream w) (processing_thread w)
          (threads w) c.

End Setters.

(** ** class VoiceCommandHandler: the command router *)
Section VoiceCommandHandler.

Context {Handler : Type} {D : Type} `{KaldiRecognizer D}.
Local Abbreviation World := (World Handler D).
Local Abbreviation M := (M Handler D).

(** What calling a handler does: whether it returns or raises, and the
    heap it leaves; handlers are user code. *)
Variable call : Handler -> World -> Outcome unit * World.

(** [handler()].  The trace records the call; what the handler does
    while it runs, the lines it may cause to be logged included, is in
    [call] and not in the trace. *)
Definition invoke (h : Handler) : M unit :=
  fun w => let '(o, w') := call h w in (o, w', [Invoke h]).

Definition register_command (command : string) (handler : Handler) : M unit :=
  modify (fun w =>
            set_commands (PyDict.set (lower command) handler (commands w)) w) ;;
  logger INFO (RegisteredCommand command).

(** The [for command, handler in self.commands.items()] loop; the result
    tells whether the loop body returned from [process_result]. *)
Fixpoint partial_matches (t : string) (items : list (string * Handler))
  : M bool :=
  match items with
  | [] => ret false
  | (command, handler) :: rest =>
      if str_in command t then
        logger INFO (ExecutingPartialMatch command) ;;
        invoke handler ;;
        ret true
      else partial_matches t rest
  end.

Definition process_result (result : RecognitionResult) : M unit :=
  let t := strip (lower (get_text_default result)) in
  if negb (truthy t) then ret tt
  else
    logger INFO (ProcessingCommand t) ;;
    cmds <- gets commands ;;
    match PyDict.get t cmds with
    | Some handler =>
        logger INFO (ExecutingCommand t) ;;
        invoke handler
    | None =>
        returned <- partial_matches t (PyDict.items cmds) ;;
        if (returned : bool) then ret tt
        else logger INFO (NoCommandFound t)
    end.

End VoiceCommandHandler.

(** ** The collaborators: capture library, threads, transport queue, wave

    These live outside the module.  The capture library is taken by its
    contract: opening the input device may fail; starting, stopping and
    closing a stream and terminating the library do not. *)
Section Collaborators.

Context {Handler : Type} {D : Type}.
Local Abbreviation World := (World Handler D).
Local Abbreviation M := (M Handler D).

(** [self.audio.open(...)]: acquires the input device or raises. *)
Definition audio_open : M Stream :=
  fun w =>
    let a := audio w in
    if input_device_ok a && negb (terminated a) then
      (Returned (mkStream true),
       set_audio (mkPyAudio (input_device_ok a) (S (open_streams a))
                            (terminated a)) w,
       [])
    else (Raised (Exc "OSError"), w, []).

(** [self.stream.start_stream()]. *)
Definition start_stream : M unit :=
  modify (fun w =>
            match stream w with
            | Some _ => set_stream (Some (mkStream true)) w
            | None => w
            end).

(** [self.stream.stop_stream()]. *)
Definition stop_stream : M unit :=
  modify (fun w =>
            match stream w with
            | Some _ => set_stream (Some (mkStream false)) w
            | None => w
            end).

(** [self.stream.close()]: releases the device. *)
Definition stream_close : M unit :=
  modify (fun w =>
            let a := audio w in
            set_audio (mkPyAudio (input_device_ok a) (pred (open_streams a))
                                 (terminated a)) w).

(** [self.audio.terminate()]: closes what is open and shuts the library. *)
Definition audio_terminate : M unit :=
  modify (fun w =>
            set_audio (mkPyAudio (input_device_ok (audio w)) 0 true) w).

(** [threading.Thread(target=..., daemon=True)] followed by [start()]. *)
Definition thread_start : M unit :=
  modify (fun w => set_thread (Some (threads w)) (S (threads w)) w).

(** [self.audio_queue.put(in_data)]. *)
Definition queue_put (in_data : bytes) : M unit :=
  modify (fun w => set_audio_queue (audio_queue w ++ [in_data]) w).

(** [self.audio_queue.get(timeout=1)]; [None] is [queue.Empty]. *)
Definition queue_get : M (option bytes) :=
  fun w =>
    match audio_queue w with
    | [] => (Returned None, w, [])
    | data :: q => (Returned (Some data), set_audio_queue q w, [])
    end.

(** [wf.readframes(n)]: the next [n] frames, fewer at the end of the
    data, nothing for [n = 0], all that is left for a negative [n]. *)
Definition readframes (n : Z) (wf : Wave_read) : bytes * Wave_read :=
  if (n =? 0)%Z then ([], wf)
  else
    let size := (n * (nchannels wf * sampwidth wf))%Z in
    let k := if (size <? 0)%Z then List.length (wave_data wf) else Z.to_nat size in
    (firstn k (wave_data wf),
     mkWave (nchannels wf) (sampwidth wf) (framerate wf)
            (skipn k (wave_data wf))).

End Collaborators.

(** ** class VoiceRecognition: controller, decode loop, file recognition *)
Section VoiceRecognition.

Context {Handler : Type} {D : Type} `{KaldiRecognizer D}.
Local Abbreviation World := (World Handler D).
Local Abbreviation M := (M Handler D).

(** The state [__init__] leaves behind, given what model loading and the
    capture library produced. *)
Definition init (rate bufsize : Z) (model : option D) (device_ok : bool)
  : World :=
  mkWorld rate bufsize false [] model (mkPyAudio device_ok 0 false) None
          None 0 (PyDict.empty Handler).

Definition start_listening (callback : option (RecognitionResult -> M unit))
  : M unit :=
  r <- gets recognizer ;;
  match r with
  | None => logger ERROR RecognizerNotInitialized
  | Some _ =>
      l <- gets is_listening ;;
      if (l : bool) then logger WARNING AlreadyListening
      else
        modify (set_is_listening true) ;;
        s <- audio_open ;;
        modify (set_stream (Some s)) ;;
        start_stream ;;
        thread_start ;;
        logger INFO StartedListening
  end.

(** [pyaudio.paContinue]. *)
Definition paContinue : Z := 0.

(** The frame-delivery hook; [frame_count] and [time_info] are not read. *)
Definition _audio_callback (in_data : bytes) (status : Z)
  : M (option bytes * Z) :=
  (if (status =? 0)%Z then ret tt
   else logger WARNING (AudioStreamStatus status)) ;;
  queue_put in_data ;;
  ret (None, paContinue).

Definition stop_listening : M unit :=
  l <- gets is_listening ;;
  if negb l then ret tt
  else
    modify (set_is_listening false) ;;
    s <- gets stream ;;
    match s with
    | Some _ => stop_stream ;; stream_close ;; modify (set_stream None)
    | None => ret tt
    end ;;
    logger INFO StoppedListening.

Definition cleanup : M unit :=
  stop_listening ;;
  audio_terminate ;;
  logger INFO CleanupCompleted.

(** The [try] body of one turn of [_process_audio], once [get] has
    delivered [data]. *)
Definition decode_frame (callback : option (RecognitionResult -> M unit))
           (data : bytes) : M unit :=
  r <- gets recognizer ;;
  match r with
  | None => raise (Exc "AttributeError")
  | Some d =>
      let '(accepted, d1) := AcceptWaveform d data in
      modify (set_recognizer (Some d1)) ;;
      if (accepted : bool) then
        let '(result, d2) := Result d1 in
        modify (set_recognizer (Some d2)) ;;
        logger INFO (RecognitionResultMsg result) ;;
        match callback with
        | Some cb =>
            if get_truthy (text result)
            then emit (Callback result) ;; cb result
            else ret tt
        | None => ret tt
        end
      else
        let '(p, d2) := PartialResult d1 in
        modify (set_recognizer (Some d2)) ;;
        match partial p with
        | Some s =>
            if truthy s then logger DEBUG (PartialResultMsg s) else ret tt
        | None => ret tt
        end
  end.

(** One turn of the [while self.is_listening] loop body: the [try]
    holds the [get] and the decoding, the first clause lets a
    [queue.Empty] pass in silence wherever in the body it was raised, the
    second logs any other [Exception]. *)
Definition process_audio_step
           (callback : option (RecognitionResult -> M unit)) : M unit :=
  try_except
    (except_queue_Empty
       (got <- queue_get ;;
        match got with
        | None => raise (Exc "queue.Empty")
        | Some data => decode_frame callback data
        end))
    (fun e => logger ERROR (ErrorProcessingAudio e)).

(** What the other execution contexts do while the worker waits in
    [get]: the capture hook delivers a frame, someone stops the session,
    or someone starts it again.  A restart is [start_listening] called in
    another thread: its exception, if any, is that caller's, and the
    callback it passes goes to the worker it starts, which is not this
    one. *)
Inductive Concurrent : Type :=
| Capture (in_data : bytes) (status : Z)
| Stop
| Restart.

Definition concurrent (c : Concurrent) : M unit :=
  match c with
  | Capture in_data status => _audio_callback in_data status ;; ret tt
  | Stop => stop_listening
  | Restart =>
      fun w =>
        let '(_, w1, ev1) := start_listening None w in (Returned tt, w1, ev1)
  end.

Fixpoint concurrently (cs : list Concurrent) : M unit :=
  match cs with
  | [] => ret tt
  | c :: rest => concurrent c ;; concurrently rest
  end.

(** [_process_audio] against a schedule: one entry per turn of the loop,
    listing what happens concurrently during that turn's wait.  The
    result tells whether the loop has exited. *)
Fixpoint _process_audio (callback : option (RecognitionResult -> M unit))
         (schedule : list (list Concurrent)) : M bool :=
  match schedule with
  | [] => ret false
  | cs :: rest =>
      l <- gets is_listening ;;
      if (l : bool) then
        concurrently cs ;;
        process_audio_step callback ;;
        _process_audio callback rest
      else ret true
  end.

(** [results.append(result['text'])] under [if result.get('text')]. *)
Definition append_text (results : list string) (result : RecognitionResult)
  : list string :=
  match text result with
  | Some s => if truthy s then results ++ [s] else results
  | None => results
  end.

(** The [while True] loop of [recognize_from_file].  Every turn that
    does not break consumes data, so the loop is run on a bound of turns
    that the length of the data fixes; [None] reports that the bound was
    too small. *)
Fixpoint read_loop (turns : nat) (wf : Wave_read) (results : list string)
  : M (option (list string)) :=
  match turns with
  | O => ret None
  | S turns' =>
      n <- gets buffer_size ;;
      let '(data, wf') := readframes n wf in
      if (List.length data =? 0)%nat then ret (Some results)
      else
        r <- gets recognizer ;;
        match r with
        | None => raise (Exc "AttributeError")
        | Some d =>
            let '(accepted, d1) := AcceptWaveform d data in
            modify (set_recognizer (Some d1)) ;;
            if (accepted : bool) then
              let '(result, d2) := Result d1 in
              modify (set_recognizer (Some d2)) ;;
              read_loop turns' wf' (append_text results result)
            else read_loop turns' wf' results
        end
  end.

(** [recognize_from_file].  The path is taken by what
    [wave.open(file_path, "rb")] does with it: the container it reads, or
    the exception it raises (no such file, not a RIFF/WAVE file, a format
    other than PCM, no channels, a sample width of zero).  The loop is
    given one turn more than there are bytes of data, which is never too
    few (see [recognize_from_file_valid]). *)
Definition recognize_from_file (opened : Outcome Wave_read) : M string :=
  r <- gets recognizer ;;
  match r with
  | None => ret EmptyString
  | Some _ =>
      match opened with
      | Raised e => raise e
      | Returned wf =>
          rate <- gets sample_rate ;;
          if negb (nchannels wf =? 1)%Z || negb (sampwidth wf =? 2)%Z
             || negb (framerate wf =? rate)%Z
          then
            logger ERROR AudioFileMustBeMonoPCM ;;
            ret EmptyString
          else
            looped <- read_loop (S (List.length (wave_data wf))) wf [] ;;
            match looped with
            | None => raise (Exc "LoopBoundExceeded")
            | Some results =>
                r' <- gets recognizer ;;
                match r' with
                | None => raise (Exc "AttributeError")
                | Some d =>
                    let '(final_result, d') := FinalResult d in
                    modify (set_recognizer (Some d')) ;;
                    ret (join " " (append_text results final_result))
                end
            end
      end
  end.

(** [VoiceCommandHandler.start_listening] and [stop_listening]. *)
Definition handler_start_listening
           (call : Handler -> World -> Outcome unit * World) : M unit :=
  start_listening (Some (process_result call)).

Definition handler_stop_listening : M unit := stop_listening.

End VoiceRecognition.

(** ** Observations on a run *)
Section Observations.

Context {Handler : Type} {D : Type}.
Local Abbreviation World := (World Handler D).
Local Abbreviation M := (M Handler D).

Definition outcome {A} (r : Outcome A * World * list (Event Handler))
  : Outcome A := fst (fst r).

Definition final {A} (r : Outcome A * World * list (Event Handler))
  : World := snd (fst r).

Definition events {A} (r : Outcome A * World * list (Event Handler))
  : list (Event Handler) := snd r.

(** The handlers invoked, in order. *)
Fixpoint fired (evs : list (Event Handler)) : list Handler :=
  match evs with
  | [] => []
  | Invoke h :: rest => h :: fired rest
  | _ :: rest => fired rest
  end.

(** The results handed to the callback, in order. *)
Fixpoint handed (evs : list (Event Handler)) : list RecognitionResult :=
  match evs with
  | [] => []
  | Callback r :: rest => r :: handed rest
  | _ :: rest => handed rest
  end.

(** The messages logged at a level, in order. *)
Fixpoint logged (lvl : Level) (evs : list (Event Handler)) : list LogMsg :=
  match evs with
  | [] => []
  | Log l m :: rest =>
      match l, lvl with
      | DEBUG, DEBUG | INFO, INFO | WARNING, WARNING | ERROR, ERROR =>
          m :: logged lvl rest
      | _, _ => logged lvl rest
      end
  | _ :: rest => logged lvl rest
  end.

(** The text normalisation [process_result] applies. *)
Definition normalize (s : string) : string := strip (lower s).

(** The first registration, in iteration order, whose phrase occurs in
    the text. *)
Definition first_match (t : string) (items : list (string * Handler))
  : option (string * Handler) :=
  find (fun p => str_in (fst p) t) items.

End Observations.

(** ** Reading the pipeline: states, chunks and collected texts *)
Section Reading.

Context {Handler : Type} {D : Type} `{KaldiRecognizer D}.
Local Abbreviation World := (World Handler D).
Local Abbreviation M := (M Handler D).
Implicit Types (w : World) (wf : Wave_read)
         (callback : option (RecognitionResult -> M unit)).

(** The two states of the pipeline. *)
Definition Idle w : Prop := is_listening w = false /\ stream w = None.

Definition Listening w : Prop := is_listening w = true.

(** A callback is user code: it may do anything to the heap and fire
    handlers, but the hand-over of a result to it is the loop's act. *)
Definition plain_callback callback : Prop :=
  forall cb r w, callback = Some cb -> handed (events (cb r w)) = [].

(** What the two [except] clauses of the loop make of the [try] body's
    result. *)
Definition after_try (r : Outcome unit * World * list (Event Handler))
  : Outcome unit * World * list (Event Handler) :=
  match r with
  | (Returned a, w1, ev1) => (Returned a, w1, ev1)
  | (Raised e, w1, ev1) =>
      if is_queue_Empty e then (Returned tt, w1, ev1)
      else if is_Exception e
           then (Returned tt, w1, ev1 ++ [Log ERROR (ErrorProcessingAudio e)])
           else (Raised e, w1, ev1)
  end.

(** What one frame hands to the callback, read off the decoder. *)
Definition handed_by_frame callback (data : bytes) (d : D)
  : list RecognitionResult :=
  let '(accepted, d1) := AcceptWaveform d data in
  if (accepted : bool) then
    let '(result, _) := Result d1 in
    match callback with
    | Some _ => if get_truthy (text result) then [result] else []
    | None => []
    end
  else [].

(** The container check: mono, 16-bit, at the configured rate. *)
Definition valid_format wf w : Prop :=
  nchannels wf = 1%Z /\ sampwidth wf = 2%Z /\ framerate wf = sample_rate w.

(** Cutting data into consecutive chunks of [k] bytes, in order, the
    last one shorter when the data runs out. *)
Fixpoint chunks_upto (bound k : nat) (data : bytes) : list bytes :=
  match bound with
  | O => []
  | S b =>
      match data with
      | [] => []
      | _ => firstn k data :: chunks_upto b k (skipn k data)
      end
  end.

Definition chunks (k : nat) (data : bytes) : list bytes :=
  chunks_upto (List.length data) k data.

(** The chunks of a mono 16-bit file for a buffer of [n] frames: two
    bytes per frame; a zero buffer reads nothing and a negative one
    reads the whole data at once. *)
Definition file_chunks (n : Z) (data : bytes) : list bytes :=
  if (n =? 0)%Z then []
  else if (n <? 0)%Z then match data with [] => [] | _ => [data] end
  else chunks (Z.to_nat (n * 2)) data.

(** Feeding chunks to the decoder in order and collecting the non-empty
    text of each result it finalises. *)
Fixpoint collect (d : D) (cs : list bytes) (texts : list string)
  : list string * D :=
  match cs with
  | [] => (texts, d)
  | c :: rest =>
      let '(accepted, d1) := AcceptWaveform d c in
      if (accepted : bool) then
        let '(result, d2) := Result d1 in
        collect d2 rest (append_text texts result)
      else collect d1 rest texts
  end.

(** The collected texts, then the trailing final result, joined by
    single spaces. *)
Definition recognized_text (n : Z) (d : D) (data : bytes) : string * D :=
  let '(texts, d1) := collect d (file_chunks n data) [] in
  let '(final_result, d2) := FinalResult d1 in
  (join " " (append_text texts final_result), d2).

End Reading.

(** Unfolds the monad and the attribute assignments in the goal. *)
Ltac run :=
  unfold bind, gets, modify, ret, raise, logger, emit, try_except,
    queue_get, queue_put, audio_open, start_stream, stop_stream,
    stream_close, audio_terminate, thread_start,
    outcome, final, events,
    set_is_listening, set_audio_queue, set_recognizer, set_audio,
    set_stream, set_thread, set_commands; simpl.

(** ** A scripted decoder and a small session, for running the model *)
Module Session.

Import Byte.

(** The decoder state counts the utterances finalised so far; a chunk
    that begins with a zero byte finalises one. *)
Definition accept (n : nat) (data : bytes) : bool * nat :=
  match data with
  | x00 :: _ => (true, S n)
  | _ => (false, n)
  end.

Definition utterance (n : nat) : string :=
  match n with
  | 1 => "hello spoky"
  | 2 => ""
  | _ => "status"
  end.

#[global] Instance scripted : KaldiRecognizer nat :=
  {| AcceptWaveform := accept;
     Result := fun n => (mkResult (Some (utterance n)) None, n);
     PartialResult := fun n => (mkResult None (Some "hel"), n);
     FinalResult := fun n => (mkResult (Some "goodbye spoky") None, n) |}.

Definition W : Type := World string nat.

(** Handlers are named; the one called goodbye stops the session, the
    others leave the heap alone. *)
Definition call (h : string) (w : W) : Outcome unit * W :=
  if String.eqb h "goodbye"
  then (outcome (stop_listening w), final (stop_listening w))
  else (Returned tt, w).

Definition fresh : W := init 16000 2 (Some 0) true.

Definition no_model : W := init 16000 4000 None true.

Definition no_device : W := init 16000 4000 (Some 0) false.

Definition registered : W :=
  final (register_command "goodbye spoky" "goodbye"
           (final (register_command "hello spoky" "hello" fresh))).

Definition heard (t : string) : RecognitionResult := mkResult (Some t) None.

(** The session once the router has started listening, and once the
    capture hook has then delivered one frame. *)
Definition started : W := final (handler_start_listening call registered).

Definition streaming : W := final (_audio_callback [x01; x02] 0 started).

Definition stereo : Wave_read := mkWave 2 2 16000 [x00; x01; x02; x03].

Definition mono : Wave_read :=
  mkWave 1 2 16000 [x00; x01; x02; x03; x05; x06; x07; x08; x00; x09].

End Session.

(** ** Further code of the module: single-buffer recognition and
    construction *)
Section MoreVoiceRecognition.

Context {Handler : Type} {D : Type} `{KaldiRecognizer D}.
Local Abbreviation World := (World Handler D).
Local Abbreviation M := (M Handler D).

(** The dict [recognize_from_audio] returns: the error dict, or what the
    decoder produced. *)
Inductive AudioResult : Type :=
| ErrorDict (error : string)
| ResultDict (r : RecognitionResult).

Definition recognize_from_audio (audio_data : bytes) : M AudioResult :=
  r <- gets recognizer ;;
  match r with
  | None => ret (ErrorDict "Recognizer not initialized")
  | Some d =>
      let '(accepted, d1) := AcceptWaveform d audio_data in
      modify (set_recognizer (Some d1)) ;;
      if (accepted : bool) then
        let '(result, d2) := Result d1 in
        modify (set_recognizer (Some d2)) ;;
        ret (ResultDict result)
      else
        let '(result, d2) := PartialResult d1 in
        modify (set_recognizer (Some d2)) ;;
        ret (ResultDict result)
  end.

(** What one buffer does to the decoder: [AcceptWaveform], then the
    fetch of the final or of the partial result. *)
Definition decoder_step (d : D) (data : bytes) : D :=
  let '(accepted, d1) := AcceptWaveform d data in
  if (accepted : bool) then snd (Result d1) else snd (PartialResult d1).

(** The calls a client makes on the controller, and the capture device
    coming and going in between. *)
Inductive ControllerCall : Type :=
| CallStart (callback : option (RecognitionResult -> M unit))
| CallStop
| CallCleanup
| DeviceChange (ok : bool).

Definition controller_call (c : ControllerCall) : M unit :=
  match c with
  | CallStart callback => start_listening callback
  | CallStop => stop_listening
  | CallCleanup => cleanup
  | DeviceChange ok =>
      modify (fun w =>
                set_audio (mkPyAudio ok (open_streams (audio w))
                                     (terminated (audio w))) w)
  end.

(** A client that goes on after an exception: the state after a series
    of calls. *)
Fixpoint controller_run (cs : list ControllerCall) (w : World) : World :=
  match cs with
  | [] => w
  | c :: rest => controller_run rest (final (controller_call c w))
  end.

(** The frames the capture hook delivers during a schedule, in order. *)
Fixpoint captured_in (cs : list Concurrent) : list bytes :=
  match cs with
  | [] => []
  | Capture in_data _ :: rest => in_data :: captured_in rest
  | Stop :: rest => captured_in rest
  | Restart :: rest => captured_in rest
  end.

Definition captured (schedule : list (list Concurrent)) : list bytes :=
  List.concat (map captured_in schedule).


(** A callback that leaves the transport queue, the decoder and the
    listening flag alone, whether it returns or raises. *)
Definition transparent_callback
           (callback : option (RecognitionResult -> M unit)) : Prop :=
  forall cb r w,
    callback = Some cb ->
    audio_queue (final (cb r w)) = audio_queue w /\
    recognizer (final (cb r w)) = recognizer w /\
    is_listening (final (cb r w)) = is_listening w.

(** A callback that leaves the listening flag alone, whether it returns
    or raises. *)
Definition flag_keeping_callback
           (callback : option (RecognitionResult -> M unit)) : Prop :=
  forall cb r w,
    callback = Some cb -> is_listening (final (cb r w)) = is_listening w.

(** Registering a series of phrases, in order. *)
Fixpoint register_all (rs : list (string * Handler)) (w : World) : World :=
  match rs with
  | [] => w
  | (command, handler) :: rest =>
      register_all rest (final (register_command command handler w))
  end.

(** The registry as [register_command] keeps it: no phrase twice, every
    phrase in lower case. *)
Definition registry_ok (d : PyDict.dict Handler) : Prop :=
  NoDup (PyDict.keys d) /\ Forall (fun k => lower k = k) (PyDict.keys d).

(** What a dispatch of the normalised text [t] emits, read off the
    registry. *)
Definition dispatch_events (t : string) (cmds : PyDict.dict Handler)
  : list (Event Handler) :=
  if negb (truthy t) then []
  else
    Log INFO (ProcessingCommand t) ::
    match PyDict.get t cmds with
    | Some h => [Log INFO (ExecutingCommand t); Invoke h]
    | None =>
        match first_match t (PyDict.items cmds) with
        | Some (command, h) =>
            [Log INFO (ExecutingPartialMatch command); Invoke h]
        | None => [Log INFO (NoCommandFound t)]
        end
    end.

(** The stream the object holds and the streams the library has open
    go together. *)
Definition one_stream (w : World) : Prop :=
  match stream w with
  | Some _ => is_listening w = true /\ open_streams (audio w) = 1%nat
  | None => open_streams (audio w) = 0%nat
  end.

End MoreVoiceRecognition.

(** ** Construction of the recognition engine *)
Section Construction.

Context {Handler : Type} {D : Type}.
Local Abbreviation World := (World Handler D).

(** What the constructor finds around it: whether the optional imports
    succeeded, the file system, the home and package directories (without
    a trailing separator), the decoder library and the capture device. *)
Record Platform (Model : Type) : Type := mkPlatform
  { VOSK_AVAILABLE : bool;
    path_exists : string -> bool;
    home : string;
    package_dir : string;
    vosk_Model : string -> Outcome Model;
    vosk_KaldiRecognizer : Model -> Z -> D;
    SetWords : D -> bool -> D;
    capture_device_ok : bool }.

(** The constructor's own log lines. *)
Inductive InitMsg : Type :=
| LoadingModelFrom (model_path : string)
| ModelNotFound
| VoiceRecognitionInitialized.

Context {Model : Type}.
Variable pf : Platform Model.

Definition possible_paths : list string :=
  [(home pf ++ "/.cache/vosk/model")%string;
   (package_dir pf ++ "/models/vosk-model")%string;
   "/usr/share/vosk/model";
   "vosk-model"].

(** The [for path in possible_paths] loop of [_find_model]. *)
Fixpoint first_model (paths : list string) : option string :=
  match paths with
  | [] => None
  | path :: rest =>
      if path_exists pf path && path_exists pf (path ++ "/am")%string
      then Some path
      else first_model rest
  end.

Definition _find_model : option string := first_model possible_paths.

(** [VoiceRecognition.__init__]: the object built, or the exception, and
    the lines logged. *)
Definition VoiceRecognition__init__
           (model_path : option string) (rate bufsize : Z)
  : Outcome World * list (Level * InitMsg) :=
  if negb (VOSK_AVAILABLE pf) then (Raised (Exc "ImportError"), [])
  else
    let model_path :=
      match model_path with
      | None => _find_model
      | Some p => Some p
      end in
    let found :=
      match model_path with
      | Some p => if truthy p && path_exists pf p then Some p else None
      | None => None
      end in
    match found with
    | Some p =>
        match vosk_Model pf p with
        | Returned model =>
            (Returned
               (init rate bufsize
                     (Some (SetWords pf (vosk_KaldiRecognizer pf model rate)
                                     true))
                     (capture_device_ok pf)),
             [(INFO, LoadingModelFrom p); (INFO, VoiceRecognitionInitialized)])
        | Raised e => (Raised e, [(INFO, LoadingModelFrom p)])
        end
    | None =>
        (Returned (init rate bufsize None (capture_device_ok pf)),
         [(WARNING, ModelNotFound); (INFO, VoiceRecognitionInitialized)])
    end.

(** A default location that [_find_model] accepts. *)
Definition model_at (path : string) : bool :=
  path_exists pf path && path_exists pf (path ++ "/am")%string.

End Construction.

Arguments Platform : clear implicits.

(** ** The agent's voice commands ([core/agent.py]) *)
Section Agent.

Context {D : Type}.

(** The four bound methods the agent registers. *)
Inductive AgentCommand : Type := cmd_hello | cmd_goodbye | cmd_status | cmd_help.

(** The agent logs through its own logger. *)
Inductive AgentEvent : Type :=
| Voice (e : Event AgentCommand)
| AgentLog (lvl : Level) (msg : string).

(** [SpokyAgent._register_voice_commands]; the argument tells whether
    [self.command_handler] is set. *)
Definition _register_voice_commands (command_handler : bool)
           (w : World AgentCommand D)
  : Outcome unit * World AgentCommand D * list AgentEvent :=
  if negb command_handler then (Returned tt, w, [])
  else
    let '(o, w', evs) :=
      (register_command "hello spoky" cmd_hello ;;
       register_command "goodbye spoky" cmd_goodbye ;;
       register_command "status" cmd_status ;;
       register_command "help" cmd_help) w in
    match o with
    | Returned _ =>
        (Returned tt, w',
         map Voice evs ++ [AgentLog INFO "Voice commands registered"])
    | Raised e => (Raised e, w', map Voice evs)
    end.

(** Which command a text selects, by the order of registration. *)
Definition agent_command (t : string) : list AgentCommand :=
  if negb (truthy t) then []
  else if str_in "hello spoky" t then [cmd_hello]
  else if str_in "goodbye spoky" t then [cmd_goodbye]
  else if str_in "status" t then [cmd_status]
  else if str_in "help" t then [cmd_help]
  else [].

End Agent.

(** ** A platform and a client for running the further code *)
Module Tour.

Import Byte Session.

(** A machine where only the system-wide model is installed. *)
Definition installed (path : string) : bool :=
  String.eqb path "/usr/share/vosk/model"
  || String.eqb path "/usr/share/vosk/model/am"
  || String.eqb path "vosk-model".

Definition machine : Platform nat unit :=
  mkPlatform true installed "/home/spoky" "/opt/SpokyAI"
             (fun _ => Returned tt) (fun _ _ => 0%nat) (fun d _ => d) true.

(** A client that starts twice, loses the device, stops, and cleans up. *)
Definition client : list (@ControllerCall string nat) :=
  [CallStart None; CallStart None; CallStop; DeviceChange false;
   CallStart None; CallStop; DeviceChange true; CallStart None; CallCleanup].

(** A machine whose home cache directory holds no model, with a model
    in the package directory and another one system-wide; the decoder
    built on a model is told by the length of the model's path. *)
Definition installed_twice (path : string) : bool :=
  String.eqb path "/home/spoky/.cache/vosk/model"
  || String.eqb path "/opt/SpokyAI/models/vosk-model"
  || String.eqb path "/opt/SpokyAI/models/vosk-model/am"
  || String.eqb path "/usr/share/vosk/model"
  || String.eqb path "/usr/share/vosk/model/am".

Definition workstation : Platform nat nat :=
  mkPlatform true installed_twice "/home/spoky" "/opt/SpokyAI"
             (fun path => Returned (String.length path))
             (fun model _ => model) (fun d _ => d) true.

(** Handler bodies that fail: with an ordinary error, with the exception
    of an empty queue, and by leaving the interpreter. *)
Definition failing (h : string) (w : W) : Outcome unit * W :=
  (Raised (Exc "RuntimeError"), w).

Definition timing_out (h : string) (w : W) : Outcome unit * W :=
  (Raised (Exc "queue.Empty"), w).

Definition exiting (h : string) (w : W) : Outcome unit * W :=
  (Raised (Exc "SystemExit"), w).

(** The session listening with two frames waiting, the first of which
    finalises the utterance [hello spoky]. *)
Definition two_frames : W :=
  set_audio_queue [[x00; x01]; [x02; x03]] started.

(** The session listening, with [status] bound to the handler that
    stops it, the decoder about to finalise that word, and a second frame
    waiting behind. *)
Definition farewell : W :=
  set_audio_queue [[x00; x01]; [x00; x02]]
    (set_recognizer (Some 2%nat)
       (final (register_command "Status" "goodbye" started))).

End Tour.

(** * Properties *)

(** ** Facts about observations *)
Section ObservationFacts.

Context {Handler : Type}.

Lemma fired_app (e1 e2 : list (Event Handler)) :
  fired (e1 ++ e2) = fired e1 ++ fired e2.
Proof.
  induction e1 as [|[l m|r|h] e1 IH]; simpl; rewrite ?IH; reflexivity.
Qed.

Lemma handed_app (e1 e2 : list (Event Handler)) :
  handed (e1 ++ e2) = handed e1 ++ handed e2.
Proof.
  induction e1 as [|[l m|r|h] e1 IH]; simpl; rewrite ?IH; reflexivity.
Qed.

Lemma logged_app lvl (e1 e2 : list (Event Handler)) :
  logged lvl (e1 ++ e2) = logged lvl e1 ++ logged lvl e2.
Proof.
  induction e1 as [|[l m|r|h] e1 IH]; simpl; rewrite ?IH; try reflexivity.
  destruct l, lvl; simpl; rewrite ?IH; reflexivity.
Qed.

End ObservationFacts.

(** ** Facts about dictionaries *)
Section DictFacts.

Variable V : Type.
Implicit Types (d : PyDict.dict V) (k : string) (v : V).

Lemma get_set_same d k v : PyDict.get k (PyDict.set k v d) = Some v.
Proof.
  induction d as [|[k' v'] d IH]; simpl.
  - now rewrite String.eqb_refl.
  - destruct (String.eqb k k') eqn:E; simpl; rewrite E; auto.
Qed.

Lemma get_set_other d k k' v :
  k' <> k -> PyDict.get k' (PyDict.set k v d) = PyDict.get k' d.
Proof.
  intros Hne. induction d as [|[k0 v0] d IH]; simpl.
  - destruct (String.eqb_spec k' k); congruence.
  - destruct (String.eqb_spec k k0) as [->|Hk]; simpl.
    + destruct (String.eqb_spec k' k0); congruence.
    + now rewrite IH.
Qed.

Lemma get_None_not_in d k :
  PyDict.get k d = None <-> ~ In k (PyDict.keys d).
Proof.
  induction d as [|[k' v'] d IH]; simpl.
  - tauto.
  - destruct (String.eqb_spec k k') as [->|Hk].
    + split; [discriminate | intros Hn; exfalso; apply Hn; now left].
    + rewrite IH. split; [intros Hn [E|Hin]; congruence | tauto].
Qed.

(** Assigning to a key that is present keeps every key where it was. *)
Lemma keys_set_present d k v :
  In k (PyDict.keys d) -> PyDict.keys (PyDict.set k v d) = PyDict.keys d.
Proof.
  induction d as [|[k' v'] d IH]; simpl; [tauto|].
  intros Hin. destruct (String.eqb_spec k k') as [->|Hk]; simpl; [reflexivity|].
  f_equal. apply IH. destruct Hin; congruence.
Qed.

(** Assigning to a key that is absent appends it. *)
Lemma set_absent d k v :
  ~ In k (PyDict.keys d) -> PyDict.set k v d = d ++ [(k, v)].
Proof.
  induction d as [|[k' v'] d IH]; simpl; [reflexivity|].
  intros Hn. destruct (String.eqb_spec k k') as [->|Hk].
  - exfalso. apply Hn. now left.
  - f_equal. apply IH. tauto.
Qed.

Lemma keys_set_NoDup d k v :
  NoDup (PyDict.keys d) -> NoDup (PyDict.keys (PyDict.set k v d)).
Proof.
  intros Hnd. destruct (in_dec string_dec k (PyDict.keys d)) as [Hin|Hn].
  - now rewrite keys_set_present.
  - rewrite set_absent by assumption. unfold PyDict.keys.
    rewrite map_app. simpl.
    apply NoDup_app. repeat split; auto.
    + constructor; [simpl; tauto | constructor].
    + intros x Hx [<-|[]]. contradiction.
Qed.

End DictFacts.

(** ** The command router *)
Section RouterFacts.

Context {Handler : Type} {D : Type}.
Local Abbreviation World := (World Handler D).
Local Abbreviation M := (M Handler D).

Variable call : Handler -> World -> Outcome unit * World.
Implicit Types (items before after : list (string * Handler)) (h : Handler).

Lemma first_match_split t items before command h after :
  items = before ++ (command, h) :: after ->
  str_in command t = true ->
  (forall c' h', In (c', h') before -> str_in c' t = false) ->
  first_match t items = Some (command, h).
Proof.
  intros -> Hin Hbefore. unfold first_match.
  induction before as [|[c0 h0] before IH]; simpl.
  - now rewrite Hin.
  - rewrite (Hbefore c0 h0) by now left.
    apply IH. intros c' h' Hc. apply (Hbefore c' h'). now right.
Qed.

Lemma first_match_none t items :
  (forall c h, In (c, h) items -> str_in c t = false) ->
  first_match t items = None.
Proof.
  unfold first_match. induction items as [|[c0 h0] items IH]; simpl; intros Hall.
  - reflexivity.
  - rewrite (Hall c0 h0) by now left.
    apply IH. intros c h Hc. apply (Hall c h). now right.
Qed.

(** The loop over the registry stops at the first phrase found in the
    text and invokes its handler, and nothing else. *)
Lemma partial_matches_first t items (w : World) :
  events (partial_matches call t items w) =
    match first_match t items with
    | Some (command, h) => [Log INFO (ExecutingPartialMatch command); Invoke h]
    | None => []
    end
  /\ (first_match t items = None ->
      partial_matches call t items w = (Returned false, w, []))
  /\ (first_match t items <> None ->
      outcome (partial_matches call t items w) <> Returned false).
Proof.
  unfold first_match.
  induction items as [|[c0 h0] items IH]; simpl.
  - repeat split; congruence.
  - destruct (str_in c0 t) eqn:E; simpl.
    + unfold bind, logger, emit, invoke, ret, events, outcome; simpl.
      destruct (call h0 w) as [[u|e] w']; simpl;
        repeat split; congruence.
    + exact IH.
Qed.

Lemma process_result_empty result (w : World) :
  normalize (get_text_default result) = EmptyString ->
  process_result call result w = (Returned tt, w, []).
Proof.
  unfold process_result, normalize. intros ->. reflexivity.
Qed.

Lemma truthy_nonempty s : s <> EmptyString -> truthy s = true.
Proof. destruct s; simpl; congruence. Qed.

Lemma process_result_exact result (w : World) h :
  normalize (get_text_default result) <> EmptyString ->
  PyDict.get (normalize (get_text_default result)) (commands w) = Some h ->
  events (process_result call result w) =
    [Log INFO (ProcessingCommand (normalize (get_text_default result)));
     Log INFO (ExecutingCommand (normalize (get_text_default result)));
     Invoke h].
Proof.
  unfold process_result, normalize. intros Hne Hget.
  rewrite (truthy_nonempty Hne). simpl.
  unfold bind, logger, emit, gets, invoke, events; simpl.
  rewrite Hget. simpl. destruct (call h w) as [[u|e] w']; reflexivity.
Qed.

Lemma process_result_partial result (w : World) :
  normalize (get_text_default result) <> EmptyString ->
  PyDict.get (normalize (get_text_default result)) (commands w) = None ->
  fired (events (process_result call result w)) =
    match first_match (normalize (get_text_default result))
                      (PyDict.items (commands w)) with
    | Some (_, h) => [h]
    | None => []
    end.
Proof.
  unfold process_result, normalize. intros Hne Hget.
  rewrite (truthy_nonempty Hne). simpl.
  set (t := strip (lower (get_text_default result))) in *.
  unfold bind at 1. unfold logger at 1, emit at 1. simpl.
  unfold bind at 1. unfold gets at 1. simpl. rewrite Hget.
  destruct (partial_matches_first t (PyDict.items (commands w)) w)
    as (Hev & Hnone & Hsome).
  unfold bind at 1.
  destruct (first_match t (PyDict.items (commands w))) as [[c h]|] eqn:Hfm.
  - destruct (partial_matches call t (PyDict.items (commands w)) w)
      as [[[b|e] w1] ev1] eqn:Hpm; unfold events in Hev; simpl in Hev; subst ev1.
    + destruct b.
      * reflexivity.
      * exfalso. apply Hsome; [congruence|]. reflexivity.
    + reflexivity.
  - rewrite (Hnone eq_refl). reflexivity.
Qed.

(** The loop over the registry, in full: the handler of the first phrase
    found in the text is run, and what it does is what the loop does. *)
Lemma partial_matches_run t items (w : World) :
  partial_matches call t items w =
    match first_match t items with
    | Some (command, h) =>
        (match fst (call h w) with
         | Returned _ => Returned true
         | Raised e => Raised e
         end,
         snd (call h w),
         [Log INFO (ExecutingPartialMatch command); Invoke h])
    | None => (Returned false, w, [])
    end.
Proof.
  unfold first_match.
  induction items as [|[c0 h0] items IH]; simpl; [reflexivity|].
  destruct (str_in c0 t) eqn:E; simpl; [|exact IH].
  unfold bind, logger, emit, invoke, ret. simpl.
  destruct (call h0 w) as [[u|e] w']; reflexivity.
Qed.

Lemma process_result_exact_run result (w : World) h :
  normalize (get_text_default result) <> EmptyString ->
  PyDict.get (normalize (get_text_default result)) (commands w) = Some h ->
  process_result call result w =
    (fst (call h w), snd (call h w),
     [Log INFO (ProcessingCommand (normalize (get_text_default result)));
      Log INFO (ExecutingCommand (normalize (get_text_default result)));
      Invoke h]).
Proof.
  unfold process_result, normalize. intros Hne Hget.
  rewrite (truthy_nonempty Hne). simpl.
  unfold bind, logger, emit, gets, invoke; simpl.
  rewrite Hget. simpl. destruct (call h w) as [[u|e] w']; reflexivity.
Qed.

Lemma process_result_partial_run result (w : World) :
  normalize (get_text_default result) <> EmptyString ->
  PyDict.get (normalize (get_text_default result)) (commands w) = None ->
  process_result call result w =
    match first_match (normalize (get_text_default result))
                      (PyDict.items (commands w)) with
    | Some (command, h) =>
        (fst (call h w), snd (call h w),
         [Log INFO (ProcessingCommand (normalize (get_text_default result)));
          Log INFO (ExecutingPartialMatch command);
          Invoke h])
    | None =>
        (Returned tt, w,
         [Log INFO (ProcessingCommand (normalize (get_text_default result)));
          Log INFO (NoCommandFound (normalize (get_text_default result)))])
    end.
Proof.
  unfold process_result, normalize. intros Hne Hget.
  rewrite (truthy_nonempty Hne). simpl.
  set (t := strip (lower (get_text_default result))) in *.
  unfold bind at 1. unfold logger at 1, emit at 1. simpl.
  unfold bind at 1. unfold gets at 1. simpl. rewrite Hget.
  unfold bind at 1. rewrite partial_matches_run.
  destruct (first_match t (PyDict.items (commands w))) as [[c h]|].
  - destruct (call h w) as [[u|e] w']; simpl; [destruct u|]; reflexivity.
  - reflexivity.
Qed.

End RouterFacts.

(** ** Registration *)
Section RegistrationFacts.

Context {Handler : Type} {D : Type}.
Local Abbreviation World := (World Handler D).

Lemma register_command_run command (handler : Handler) (w : World) :
  register_command command handler w =
    (Returned tt,
     set_commands (PyDict.set (lower command) handler (commands w)) w,
     [Log INFO (RegisteredCommand command)]).
Proof. reflexivity. Qed.

Lemma commands_after_register command (handler : Handler) (w : World) :
  commands (final (register_command command handler w)) =
    PyDict.set (lower command) handler (commands w).
Proof. reflexivity. Qed.

Lemma first_match_found t (items : list (string * Handler)) c h :
  first_match t items = Some (c, h) -> str_in c t = true.
Proof.
  unfold first_match. intros Hf. apply find_some in Hf. exact (proj2 Hf).
Qed.

(** Overwriting a key leaves the partial-match choice where it was; only
    the handler of the overwritten key changes. *)
Lemma first_match_set t (d : PyDict.dict Handler) k v c h :
  first_match t d = Some (c, h) ->
  first_match t (PyDict.set k v d) =
    Some (c, if String.eqb k c then v else h).
Proof.
  unfold first_match.
  induction d as [|[k0 v0] d IH]; simpl; [discriminate|].
  destruct (String.eqb_spec k k0) as [->|Hk]; simpl.
  - destruct (str_in k0 t) eqn:E.
    + intros [= <- <-]. now rewrite String.eqb_refl.
    + intros Hf. rewrite Hf.
      destruct (String.eqb_spec k0 c) as [->|Hc]; [|reflexivity].
      apply find_some in Hf. simpl in Hf. destruct Hf as [_ Hf]. congruence.
  - destruct (str_in k0 t) eqn:E.
    + intros [= <- <-]. destruct (String.eqb_spec k k0); congruence.
    + exact IH.
Qed.

End RegistrationFacts.

(** ** The lifecycle controller *)
Section ControllerFacts.

Context {Handler : Type} {D : Type} `{KaldiRecognizer D}.
Local Abbreviation World := (World Handler D).
Local Abbreviation M := (M Handler D).
Implicit Types (w : World) (callback : option (RecognitionResult -> M unit)).

Lemma start_listening_no_recognizer callback w :
  recognizer w = None ->
  start_listening callback w =
    (Returned tt, w, [Log ERROR RecognizerNotInitialized]).
Proof.
  intros Hr. unfold start_listening, bind, gets; simpl. now rewrite Hr.
Qed.

Lemma start_listening_already callback w d :
  recognizer w = Some d ->
  is_listening w = true ->
  start_listening callback w =
    (Returned tt, w, [Log WARNING AlreadyListening]).
Proof.
  intros Hr Hl. unfold start_listening, bind, gets; simpl.
  now rewrite Hr, Hl.
Qed.

Lemma start_listening_device_error callback w d :
  recognizer w = Some d ->
  is_listening w = false ->
  input_device_ok (audio w) && negb (terminated (audio w)) = false ->
  start_listening callback w =
    (Raised (Exc "OSError"), set_is_listening true w, []).
Proof.
  intros Hr Hl Hdev. unfold start_listening, bind, gets; simpl.
  rewrite Hr, Hl. unfold audio_open; simpl. now rewrite Hdev.
Qed.

Lemma start_listening_opens callback w d :
  recognizer w = Some d ->
  is_listening w = false ->
  input_device_ok (audio w) && negb (terminated (audio w)) = true ->
  start_listening callback w =
    (Returned tt,
     mkWorld (sample_rate w) (buffer_size w) true (audio_queue w)
             (recognizer w)
             (mkPyAudio (input_device_ok (audio w))
                        (S (open_streams (audio w)))
                        (terminated (audio w)))
             (Some (mkStream true)) (Some (threads w)) (S (threads w))
             (commands w),
     [Log INFO StartedListening]).
Proof.
  intros Hr Hl Hdev. unfold start_listening, bind, gets; simpl.
  rewrite Hr, Hl. unfold audio_open; simpl. rewrite Hdev. run.
  now rewrite Hr.
Qed.

Lemma stop_listening_idle w :
  is_listening w = false -> stop_listening w = (Returned tt, w, []).
Proof.
  intros Hl. unfold stop_listening, bind, gets; simpl. now rewrite Hl.
Qed.

Lemma stop_listening_returns w : outcome (stop_listening w) = Returned tt.
Proof.
  unfold stop_listening, bind, gets, outcome; simpl.
  destruct (is_listening w); simpl; [|reflexivity].
  destruct (stream w); reflexivity.
Qed.

Lemma stop_listening_clears_flag w :
  is_listening (final (stop_listening w)) = false.
Proof.
  unfold stop_listening. run.
  destruct (is_listening w) eqn:Hl; simpl; [|exact Hl].
  destruct (stream w); reflexivity.
Qed.

Lemma cleanup_returns w : outcome (cleanup w) = Returned tt.
Proof.
  unfold cleanup, bind at 1.
  pose proof (stop_listening_returns w) as Hs.
  destruct (stop_listening w) as [[[u|e] w1] ev1]; unfold outcome in *;
    simpl in *; [reflexivity | discriminate].
Qed.

Lemma cleanup_final w :
  final (cleanup w) =
    set_audio (mkPyAudio (input_device_ok (audio w)) 0 true)
              (final (stop_listening w)).
Proof.
  unfold cleanup, bind at 1.
  pose proof (stop_listening_returns w) as Hs.
  assert (Hdev : input_device_ok (audio (final (stop_listening w)))
                 = input_device_ok (audio w)).
  { unfold stop_listening. run.
    destruct (is_listening w); simpl; [|reflexivity].
    destruct (stream w); reflexivity. }
  destruct (stop_listening w) as [[[u|e] w1] ev1]; unfold outcome, final in *;
    simpl in *; [|discriminate].
  now rewrite Hdev.
Qed.

End ControllerFacts.

(** ** The streaming decode loop *)
Section DecodeLoopFacts.

Context {Handler : Type} {D : Type} `{KaldiRecognizer D}.
Local Abbreviation World := (World Handler D).
Local Abbreviation M := (M Handler D).
Implicit Types (w : World) (callback : option (RecognitionResult -> M unit)).

Lemma decode_frame_handed callback data w :
  plain_callback callback ->
  handed (events (decode_frame callback data w)) =
    match recognizer w with
    | Some d => handed_by_frame callback data d
    | None => []
    end.
Proof.
  intros Hcb. unfold decode_frame, handed_by_frame.
  unfold bind at 1, gets at 1. simpl.
  destruct (recognizer w) as [d|]; [|reflexivity].
  destruct (AcceptWaveform d data) as [[|] d1].
  - destruct (Result d1) as [result d2].
    destruct callback as [cb|]; [|reflexivity].
    destruct (get_truthy (text result)); [|reflexivity].
    run.
    pose proof (Hcb cb result
      (mkWorld (sample_rate w) (buffer_size w) (is_listening w)
               (audio_queue w) (Some d2) (audio w) (stream w)
               (processing_thread w) (threads w) (commands w)) eq_refl) as Hp.
    unfold events in Hp.
    match goal with |- context [cb result ?x] => destruct (cb result x) as [[[u|e] w'] ev] end;
      simpl in *; now rewrite Hp.
  - destruct (PartialResult d1) as [p d2]. run.
    destruct (partial p) as [s|]; [destruct (truthy s)|]; reflexivity.
Qed.

(** A frame the decoder does not accept produces log entries only. *)
Lemma decode_frame_partial callback data w d d1 p d2 :
  recognizer w = Some d ->
  AcceptWaveform d data = (false, d1) ->
  PartialResult d1 = (p, d2) ->
  decode_frame callback data w =
    (Returned tt, set_recognizer (Some d2) w,
     match partial p with
     | Some s => if truthy s then [Log DEBUG (PartialResultMsg s)] else []
     | None => []
     end).
Proof.
  intros Hr Hacc Hp. unfold decode_frame.
  unfold bind at 1, gets at 1. simpl. rewrite Hr, Hacc, Hp. run.
  destruct (partial p) as [s|]; [destruct (truthy s)|]; reflexivity.
Qed.

Lemma process_audio_step_empty callback w :
  audio_queue w = [] -> process_audio_step callback w = (Returned tt, w, []).
Proof.
  intros Hq. unfold process_audio_step, try_except, except_queue_Empty.
  unfold bind, queue_get. rewrite Hq. reflexivity.
Qed.

(** A turn that finds a frame is the [try] body on that frame, seen
    through the two [except] clauses. *)
Lemma process_audio_step_frame callback w data q :
  audio_queue w = data :: q ->
  process_audio_step callback w =
    after_try (decode_frame callback data (set_audio_queue q w)).
Proof.
  intros Hq. unfold process_audio_step, try_except, except_queue_Empty.
  unfold bind at 1, queue_get at 1. rewrite Hq. cbn [fst snd].
  unfold after_try.
  destruct (decode_frame callback data (set_audio_queue q w))
    as [[[u|e] w1] ev1]; simpl.
  - reflexivity.
  - destruct (is_queue_Empty e) eqn:Hempty; simpl.
    + reflexivity.
    + destruct (is_Exception e); reflexivity.
Qed.

Lemma after_try_handed (r : Outcome unit * World * list (Event Handler)) :
  handed (events (after_try r)) = handed (events r).
Proof.
  unfold after_try, events. destruct r as [[[u|e] w1] ev1]; simpl;
    [reflexivity|].
  destruct (is_queue_Empty e); [reflexivity|].
  destruct (is_Exception e); simpl; [|reflexivity].
  rewrite handed_app. simpl. now rewrite app_nil_r.
Qed.

Lemma after_try_fired (r : Outcome unit * World * list (Event Handler)) :
  fired (events (after_try r)) = fired (events r).
Proof.
  unfold after_try, events. destruct r as [[[u|e] w1] ev1]; simpl;
    [reflexivity|].
  destruct (is_queue_Empty e); [reflexivity|].
  destruct (is_Exception e); simpl; [|reflexivity].
  rewrite fired_app. simpl. now rewrite app_nil_r.
Qed.

Lemma after_try_final (r : Outcome unit * World * list (Event Handler)) :
  final (after_try r) = final r.
Proof.
  unfold after_try, final. destruct r as [[[u|e] w1] ev1]; simpl;
    [reflexivity|].
  destruct (is_queue_Empty e); [reflexivity|].
  destruct (is_Exception e); reflexivity.
Qed.

(** The worker's turn ends on an exception only if that exception is
    neither a [queue.Empty] nor any other [Exception]. *)
Lemma after_try_raised (r : Outcome unit * World * list (Event Handler)) e :
  outcome (after_try r) = Raised e ->
  outcome r = Raised e /\ is_Exception e = false /\ is_queue_Empty e = false.
Proof.
  unfold after_try, outcome. destruct r as [[[u|e0] w1] ev1]; simpl;
    [discriminate|].
  destruct (is_queue_Empty e0) eqn:He; [discriminate|].
  destruct (is_Exception e0) eqn:Hx; [discriminate|].
  intros [= <-]. auto.
Qed.

Lemma process_audio_step_partial callback w data q d d1 p d2 :
  audio_queue w = data :: q ->
  recognizer w = Some d ->
  AcceptWaveform d data = (false, d1) ->
  PartialResult d1 = (p, d2) ->
  process_audio_step callback w =
    (Returned tt, set_recognizer (Some d2) (set_audio_queue q w),
     match partial p with
     | Some s => if truthy s then [Log DEBUG (PartialResultMsg s)] else []
     | None => []
     end).
Proof.
  intros Hq Hr Hacc Hp. rewrite (process_audio_step_frame callback w Hq).
  rewrite (@decode_frame_partial callback data
             (set_audio_queue q w) d d1 p d2 Hr Hacc Hp).
  reflexivity.
Qed.

Lemma process_audio_step_handed callback w :
  plain_callback callback ->
  handed (events (process_audio_step callback w)) =
    match audio_queue w, recognizer w with
    | data :: _, Some d => handed_by_frame callback data d
    | _, _ => []
    end.
Proof.
  intros Hcb. destruct (audio_queue w) as [|data q] eqn:Hq.
  - now rewrite (process_audio_step_empty callback w Hq).
  - rewrite (process_audio_step_frame callback w Hq), after_try_handed.
    exact (decode_frame_handed data (set_audio_queue q w) Hcb).
Qed.

Lemma handed_by_frame_truthy callback data d :
  Forall (fun r => get_truthy (text r) = true)
         (handed_by_frame callback data d).
Proof.
  unfold handed_by_frame.
  destruct (AcceptWaveform d data) as [[|] d1]; [|constructor].
  destruct (Result d1) as [result d2].
  destruct callback; [|constructor].
  destruct (get_truthy (text result)) eqn:E; repeat constructor. exact E.
Qed.

Lemma bind_events {A B} (m : M A) (k : A -> M B) w :
  events (bind m k w) =
    match m w with
    | (Returned a, w1, ev1) => ev1 ++ events (k a w1)
    | (Raised _, _, ev1) => ev1
    end.
Proof.
  unfold bind, events. destruct (m w) as [[[a|e] w1] ev1]; [|reflexivity].
  destruct (k a w1) as [[o w2] ev2]. reflexivity.
Qed.

Lemma start_listening_handed callback w :
  handed (events (start_listening callback w)) = [].
Proof.
  unfold start_listening. run.
  destruct (recognizer w); simpl; [|reflexivity].
  destruct (is_listening w); simpl; [reflexivity|].
  destruct (input_device_ok (audio w) && negb (terminated (audio w)));
    reflexivity.
Qed.

Lemma concurrent_handed (c : Concurrent) w :
  handed (events (concurrent c w)) = [].
Proof.
  destruct c as [in_data status| |]; simpl.
  - unfold _audio_callback. run. destruct (status =? 0)%Z; reflexivity.
  - unfold stop_listening. run.
    destruct (is_listening w); simpl; [|reflexivity].
    destruct (stream w); reflexivity.
  - pose proof (start_listening_handed None w) as Hs.
    destruct (start_listening None w) as [[o w1] ev1]. exact Hs.
Qed.

Lemma concurrently_handed (cs : list Concurrent) w :
  handed (events (concurrently cs w)) = [].
Proof.
  revert w. induction cs as [|c cs IH]; intros w; simpl; [reflexivity|].
  rewrite bind_events. pose proof (concurrent_handed c w) as Hc.
  destruct (concurrent c w) as [[[u|e] w1] ev1]; unfold events in Hc;
    simpl in Hc; [|exact Hc].
  now rewrite handed_app, Hc, IH.
Qed.

(** Over a whole run of the worker, whatever happens concurrently, every
    result handed to the callback carries a non-empty text. *)
Lemma process_audio_handed_truthy callback schedule w :
  plain_callback callback ->
  Forall (fun r => get_truthy (text r) = true)
         (handed (events (_process_audio callback schedule w))).
Proof.
  intros Hcb. revert w.
  induction schedule as [|cs rest IH]; intros w; simpl; [constructor|].
  rewrite bind_events. unfold gets at 1. simpl.
  destruct (is_listening w); [|constructor].
  rewrite bind_events. pose proof (concurrently_handed cs w) as Hc.
  destruct (concurrently cs w) as [[[u|e] w1] ev1]; unfold events in Hc;
    simpl in Hc; [|rewrite Hc; constructor].
  rewrite handed_app, Hc. simpl.
  rewrite bind_events.
  pose proof (process_audio_step_handed w1 Hcb) as Hs.
  destruct (process_audio_step callback w1) as [[[u'|e] w2] ev2];
    unfold events in Hs; simpl in Hs.
  - rewrite handed_app, Hs. apply Forall_app. split; [|apply IH].
    destruct (audio_queue w1); [constructor|].
    destruct (recognizer w1); [|constructor].
    apply handed_by_frame_truthy.
  - rewrite Hs.
    destruct (audio_queue w1); [constructor|].
    destruct (recognizer w1); [|constructor].
    apply handed_by_frame_truthy.
Qed.

(** The router as a callback hands nothing over itself. *)
Lemma process_result_plain (call : Handler -> World -> Outcome unit * World) :
  plain_callback (Some (process_result call)).
Proof.
  intros cb r w [= <-]. unfold process_result.
  destruct (truthy (strip (lower (get_text_default r)))); simpl;
    [|reflexivity].
  rewrite bind_events. unfold logger at 1, emit at 1. simpl.
  rewrite bind_events. unfold gets at 1. simpl.
  destruct (PyDict.get _ (commands w)) as [h|].
  - unfold invoke. run. destruct (call h w) as [o w']. reflexivity.
  - rewrite bind_events.
    destruct (partial_matches_first call (strip (lower (get_text_default r)))
                (PyDict.items (commands w)) w) as (Hev & _ & _).
    destruct (partial_matches call _ (PyDict.items (commands w)) w)
      as [[[b|e] w1] ev1]; unfold events in Hev; simpl in Hev; subst ev1.
    + rewrite handed_app.
      assert (Hk : handed (events ((if b then ret tt
                     else logger INFO
                            (NoCommandFound
                               (strip (lower (get_text_default r))))) w1))
                   = []) by (destruct b; reflexivity).
      unfold M in *. rewrite Hk, app_nil_r.
      destruct (first_match _ _) as [[c h]|]; reflexivity.
    + destruct (first_match _ _) as [[c h]|]; reflexivity.
Qed.

End DecodeLoopFacts.

(** ** File recognition *)
Section FileFacts.

Context {Handler : Type} {D : Type} `{KaldiRecognizer D}.
Local Abbreviation World := (World Handler D).
Local Abbreviation M := (M Handler D).
Implicit Types (w : World) (wf : Wave_read).

Lemma set_recognizer_same w d :
  recognizer w = Some d -> set_recognizer (Some d) w = w.
Proof. destruct w; simpl; intros ->; reflexivity. Qed.

Lemma recognize_from_file_no_recognizer (opened : Outcome Wave_read) w :
  recognizer w = None ->
  recognize_from_file opened w = (Returned EmptyString, w, []).
Proof.
  intros Hr. unfold recognize_from_file, bind, gets; simpl. now rewrite Hr.
Qed.

(** With a recognizer, what [wave.open] raises reaches the caller. *)
Lemma recognize_from_file_not_opened e w d :
  recognizer w = Some d ->
  recognize_from_file (Raised e) w = (Raised e, w, []).
Proof.
  intros Hr. unfold recognize_from_file, bind, gets, raise; simpl.
  now rewrite Hr.
Qed.

Lemma recognize_from_file_bad_format wf w d :
  recognizer w = Some d ->
  ~ valid_format wf w ->
  recognize_from_file (Returned wf) w =
    (Returned EmptyString, w, [Log ERROR AudioFileMustBeMonoPCM]).
Proof.
  intros Hr Hbad. unfold recognize_from_file.
  unfold bind at 1, gets at 1. simpl. rewrite Hr.
  unfold bind at 1, gets at 1. simpl.
  destruct (negb (nchannels wf =? 1)%Z || negb (sampwidth wf =? 2)%Z
            || negb (framerate wf =? sample_rate w)%Z) eqn:E.
  - reflexivity.
  - exfalso. apply Hbad.
    apply orb_false_elim in E. destruct E as [E E3].
    apply orb_false_elim in E. destruct E as [E1 E2].
    apply negb_false_iff in E1, E2, E3.
    apply Z.eqb_eq in E1, E2, E3. now repeat split.
Qed.

Lemma read_loop_positive (n : Z) (b : nat) :
  (0 < n)%Z ->
  forall wf results w d,
    recognizer w = Some d ->
    buffer_size w = n ->
    (nchannels wf * sampwidth wf = 2)%Z ->
    (List.length (wave_data wf) <= b)%nat ->
    read_loop (S b) wf results w =
      let '(texts, d') :=
        collect d (chunks_upto b (Z.to_nat (n * 2)) (wave_data wf)) results in
      (Returned (Some texts), set_recognizer (Some d') w, []).
Proof.
  intros Hn. induction b as [|b IH]; intros wf results w d Hr Hbuf Hfs Hlen.
  - destruct (wave_data wf) as [|x xs] eqn:Hdata; simpl in Hlen; [|lia].
    simpl. unfold bind at 1, gets at 1. simpl. rewrite Hbuf.
    unfold readframes. rewrite Hdata.
    destruct (n =? 0)%Z; [|rewrite firstn_nil]; simpl;
      now rewrite (set_recognizer_same _ Hr).
  - remember (S b) as b1 eqn:Hb1.
    cbn [read_loop]. unfold bind at 1, gets at 1. cbn [fst snd]. rewrite Hbuf.
    unfold readframes. rewrite Hfs. subst b1.
    replace (n =? 0)%Z with false by (symmetry; apply Z.eqb_neq; lia).
    replace (n * 2 <? 0)%Z with false by (symmetry; apply Z.ltb_ge; lia).
    set (k := Z.to_nat (n * 2)).
    assert (Hk : (1 <= k)%nat) by (unfold k; lia).
    destruct (wave_data wf) as [|x xs] eqn:Hdata.
    + rewrite firstn_nil. simpl. now rewrite (set_recognizer_same _ Hr).
    + cbn [chunks_upto collect].
      assert (Hne : (List.length (firstn k (x :: xs)) =? 0)%nat = false).
      { apply Nat.eqb_neq. rewrite length_firstn. cbn [List.length]. lia. }
      rewrite Hne.
      assert (Hrest : (List.length (skipn k (x :: xs)) <= b)%nat).
      { rewrite length_skipn. cbn [List.length] in *. lia. }
      unfold bind at 1, gets at 1. cbn [fst snd]. rewrite Hr.
      destruct (AcceptWaveform d (firstn k (x :: xs))) as [[|] d1].
      * destruct (Result d1) as [result d2].
        unfold bind at 1, modify at 1. cbn [fst snd].
        unfold bind at 1, modify at 1. cbn [fst snd].
        rewrite (IH _ (append_text results result) _ d2); auto.
        cbn [wave_data].
        destruct (collect d2 _ _) as [texts d']. reflexivity.
      * unfold bind at 1, modify at 1. cbn [fst snd].
        rewrite (IH _ results _ d1); auto.
        cbn [wave_data].
        destruct (collect d1 _ _) as [texts d']. reflexivity.
Qed.

Lemma read_loop_zero wf results w b :
  buffer_size w = 0%Z ->
  read_loop (S b) wf results w = (Returned (Some results), w, []).
Proof.
  intros Hbuf. cbn [read_loop]. unfold bind at 1, gets at 1. cbn [fst snd].
  rewrite Hbuf. reflexivity.
Qed.

Lemma read_loop_negative wf results w d :
  recognizer w = Some d ->
  (buffer_size w < 0)%Z ->
  (nchannels wf * sampwidth wf = 2)%Z ->
  read_loop (S (List.length (wave_data wf))) wf results w =
    let '(texts, d') :=
      collect d (match wave_data wf with [] => [] | _ => [wave_data wf] end)
              results in
    (Returned (Some texts), set_recognizer (Some d') w, []).
Proof.
  intros Hr Hbuf Hfs.
  assert (Hz : (buffer_size w =? 0)%Z = false) by (apply Z.eqb_neq; lia).
  assert (Hneg : (buffer_size w * 2 <? 0)%Z = true) by (apply Z.ltb_lt; lia).
  destruct (wave_data wf) as [|x xs] eqn:Hdata.
  - cbn [List.length read_loop]. unfold bind at 1, gets at 1. cbn [fst snd].
    unfold readframes. rewrite Hz, Hfs, Hneg, Hdata. simpl.
    now rewrite (set_recognizer_same _ Hr).
  - remember (List.length (x :: xs)) as b eqn:Hb.
    cbn [read_loop]. unfold bind at 1, gets at 1. cbn [fst snd].
    unfold readframes. rewrite Hz, Hfs, Hneg, Hdata.
    rewrite firstn_all, skipn_all. cbn [List.length Nat.eqb collect].
    unfold bind at 1, gets at 1. cbn [fst snd]. rewrite Hr.
    subst b. cbn [List.length].
    destruct (AcceptWaveform d (x :: xs)) as [[|] d1].
    + destruct (Result d1) as [result d2].
      unfold bind at 1, modify at 1. cbn [fst snd].
      unfold bind at 1, modify at 1. cbn [fst snd].
      cbn [read_loop]. unfold bind at 1, gets at 1. cbn [fst snd].
      unfold readframes. cbn [buffer_size set_recognizer nchannels sampwidth
                              wave_data].
      rewrite Hz, Hfs, Hneg. reflexivity.
    + unfold bind at 1, modify at 1. cbn [fst snd].
      cbn [read_loop]. unfold bind at 1, gets at 1. cbn [fst snd].
      unfold readframes. cbn [buffer_size set_recognizer nchannels sampwidth
                              wave_data].
      rewrite Hz, Hfs, Hneg. reflexivity.
Qed.

(** On a valid file the loop always finishes within its bound, and the
    call returns the text the decoder yields on the file's chunks. *)
Lemma recognize_from_file_valid wf w d :
  recognizer w = Some d ->
  valid_format wf w ->
  recognize_from_file (Returned wf) w =
    let '(s, d') := recognized_text (buffer_size w) d (wave_data wf) in
    (Returned s, set_recognizer (Some d') w, []).
Proof.
  intros Hr (Hc & Hs & Hf). unfold recognize_from_file, recognized_text.
  unfold bind at 1, gets at 1. cbn [fst snd]. rewrite Hr.
  unfold bind at 1, gets at 1. cbn [fst snd].
  rewrite Hc, Hs, Hf, !Z.eqb_refl. cbn [negb orb].
  assert (Hfs : (nchannels wf * sampwidth wf = 2)%Z) by (rewrite Hc, Hs; lia).
  unfold bind at 1. unfold file_chunks.
  destruct (Z.eqb_spec (buffer_size w) 0) as [Hz|Hnz].
  - rewrite read_loop_zero by assumption. cbn [collect].
    unfold bind at 1, gets at 1. cbn [fst snd]. rewrite Hr.
    destruct (FinalResult d) as [final_result d']. reflexivity.
  - destruct (Z.ltb_spec (buffer_size w) 0) as [Hneg|Hpos].
    + rewrite (@read_loop_negative wf [] w d Hr Hneg Hfs).
      destruct (collect d _ []) as [texts d1].
      unfold bind at 1, gets at 1. cbn [fst snd recognizer set_recognizer].
      destruct (FinalResult d1) as [final_result d']. reflexivity.
    + rewrite (@read_loop_positive (buffer_size w) (List.length (wave_data wf)))
        with (d := d); auto; try lia.
      unfold chunks.
      destruct (collect d _ []) as [texts d1].
      unfold bind at 1, gets at 1. cbn [fst snd recognizer set_recognizer].
      destruct (FinalResult d1) as [final_result d']. reflexivity.
Qed.

Lemma chunks_upto_concat (k b : nat) :
  (1 <= k)%nat ->
  forall data, (List.length data <= b)%nat ->
               List.concat (chunks_upto b k data) = data.
Proof.
  intros Hk. induction b as [|b IH]; intros data Hlen.
  - destruct data; simpl in *; [reflexivity | lia].
  - destruct data as [|x xs]; [reflexivity|].
    cbn [chunks_upto List.concat]. rewrite IH.
    + apply firstn_skipn.
    + rewrite length_skipn. cbn [List.length] in *. lia.
Qed.

Lemma chunks_upto_nonempty (k b : nat) :
  (1 <= k)%nat ->
  forall data, Forall (fun c => c <> []) (chunks_upto b k data).
Proof.
  intros Hk. induction b as [|b IH]; intros data; [constructor|].
  destruct data as [|x xs]; [constructor|].
  cbn [chunks_upto]. constructor; [|apply IH].
  destruct k; [lia | discriminate].
Qed.

(** Every chunk before the last has exactly [k] bytes. *)
Lemma chunks_upto_fixed_size (k b : nat) :
  (1 <= k)%nat ->
  forall data init last,
    chunks_upto b k data = init ++ [last] ->
    Forall (fun c => List.length c = k) init /\
    (1 <= List.length last <= k)%nat.
Proof.
  intros Hk. induction b as [|b IH]; intros data init last Heq.
  - destruct init; discriminate.
  - destruct data as [|x xs]; [destruct init; discriminate|].
    cbn [chunks_upto] in Heq.
    destruct init as [|c init]; simpl in Heq.
    + injection Heq as Hlast _. subst last.
      rewrite length_firstn. cbn [List.length]. split; [constructor | lia].
    + injection Heq as Hc Hrest. subst c.
      destruct (IH _ _ _ Hrest) as [Hinit Hlast]. split; [|exact Hlast].
      constructor; [|exact Hinit].
      rewrite length_firstn.
      destruct (Nat.le_gt_cases (List.length (x :: xs)) k) as [Hle|Hgt];
        [|lia].
      rewrite (skipn_all2 _ Hle) in Hrest.
      destruct b; simpl in Hrest; destruct init; discriminate.
Qed.

End FileFacts.

(** * The claims on the command router *)
Section RouterClaims.

Context {Handler : Type} {D : Type}.
Local Abbreviation World := (World Handler D).
Variable call : Handler -> World -> Outcome unit * World.

(** C1.  A dispatch normalises the recognised text.  With an empty
    normalised text nothing happens: no handler is run, nothing changes.
    When the normalised text is a registered phrase, that phrase's
    handler is the one invoked, it alone, and the call ends as that
    handler ends, on the heap that handler leaves: no partial match is
    tried after it.  Otherwise the registry is walked in registration
    order and the handler of the first phrase that occurs in the text is
    invoked, it alone, the call ending as that handler ends; when no
    phrase occurs in the text, no handler is invoked and nothing changes.
    At most one handler fires per call. *)
Theorem dispatch_exact_then_first_substring
        (result : RecognitionResult) (w : World) :
  let t := normalize (get_text_default result) in
  let run := process_result call result w in
  (t = EmptyString -> run = (Returned tt, w, [])) /\
  (forall h,
      t <> EmptyString ->
      PyDict.get t (commands w) = Some h ->
      fired (events run) = [h] /\
      outcome run = fst (call h w) /\
      final run = snd (call h w)) /\
  (forall before command h after,
      t <> EmptyString ->
      PyDict.get t (commands w) = None ->
      PyDict.items (commands w) = before ++ (command, h) :: after ->
      str_in command t = true ->
      (forall c' h', In (c', h') before -> str_in c' t = false) ->
      fired (events run) = [h] /\
      outcome run = fst (call h w) /\
      final run = snd (call h w)) /\
  (t <> EmptyString ->
   PyDict.get t (commands w) = None ->
   (forall c h, In (c, h) (PyDict.items (commands w)) -> str_in c t = false) ->
   fired (events run) = [] /\
   outcome run = Returned tt /\
   final run = w) /\
  (List.length (fired (events run)) <= 1)%nat.
Proof.
  intros t run. subst run.
  split; [|split; [|split; [|split]]].
  - intros Ht. exact (process_result_empty call result w Ht).
  - intros h Hne Hget.
    rewrite (process_result_exact_run call result w Hne Hget).
    repeat split.
  - intros before command h after Hne Hget Hitems Hin Hbefore.
    rewrite (process_result_partial_run call result w Hne Hget).
    fold t.
    rewrite (@first_match_split _ t _ before _ _ after Hitems Hin Hbefore).
    repeat split.
  - intros Hne Hget Hnone.
    rewrite (process_result_partial_run call result w Hne Hget).
    fold t. rewrite (@first_match_none _ t _ Hnone). repeat split.
  - destruct (string_dec t EmptyString) as [Ht|Hne].
    + rewrite (process_result_empty call result w Ht). simpl. lia.
    + destruct (PyDict.get t (commands w)) as [h|] eqn:Hget.
      * rewrite (process_result_exact call result w Hne Hget). simpl. lia.
      * rewrite (process_result_partial call result w Hne Hget).
        destruct (first_match _ _) as [[c h]|]; simpl; lia.
Qed.

(** C2, as amended.  For a phrase whose lowercased form carries no
    surrounding whitespace, [register_command] stores the normalised
    phrase with its handler.  Dispatching a text whose normalised form is
    non-empty and equals that phrase invokes the handler; dispatching a
    text that contains the phrase, equals no registered phrase and
    contains no phrase standing earlier in the registry invokes it too. *)
Theorem register_then_dispatch
        (command : string) (handler : Handler)
        (result : RecognitionResult) (w : World) :
  strip (lower command) = lower command ->
  let w1 := final (register_command command handler w) in
  let t := normalize (get_text_default result) in
  let evs := events (process_result call result w1) in
  PyDict.get (normalize command) (commands w1) = Some handler /\
  (t <> EmptyString -> t = normalize command -> fired evs = [handler]) /\
  (forall before after,
      str_in (normalize command) t = true ->
      PyDict.get t (commands w1) = None ->
      PyDict.items (commands w1)
        = before ++ (normalize command, handler) :: after ->
      (forall c h, In (c, h) before -> str_in c t = false) ->
      fired evs = [handler]).
Proof.
  intros Htrim w1 t evs.
  assert (Hkey : normalize command = lower command) by exact Htrim.
  assert (Hstored : PyDict.get (normalize command) (commands w1) = Some handler).
  { subst w1. rewrite commands_after_register, Hkey. apply get_set_same. }
  split; [exact Hstored|]. split.
  - intros Hne Heq. subst evs.
    assert (Hget : PyDict.get t (commands w1) = Some handler)
      by (rewrite Heq; exact Hstored).
    now rewrite (process_result_exact call result w1 Hne Hget).
  - intros before after Hin Hget Hitems Hbefore. subst evs.
    assert (Hne : t <> EmptyString).
    { intros Ht. rewrite Ht in Hin, Hget.
      destruct (normalize command) eqn:Hn; simpl in Hin; [|discriminate].
      congruence. }
    rewrite (process_result_partial call result w1 Hne Hget).
    fold t.
    now rewrite (@first_match_split _ t _ before _ _ after Hitems Hin Hbefore).
Qed.

(** Registering again a phrase whose stored (lowercased) form is already
    in the registry replaces the handler where the phrase stands: the order of
    the phrases is unchanged, the other handlers are unchanged, and
    whatever the partial-match walk selected before it selects still,
    with the new handler when it is that phrase.  After registering [p],
    then [q], then [p] again, the registry holds [p] before [q], and a
    text containing [p] that is neither phrase fires the new handler. *)
Lemma reregister_keeps_position :
  (forall (w : World) (command : string) (handler : Handler),
      In (lower command) (PyDict.keys (commands w)) ->
      let w' := final (register_command command handler w) in
      PyDict.keys (commands w') = PyDict.keys (commands w) /\
      PyDict.get (lower command) (commands w') = Some handler /\
      (forall k, k <> lower command ->
                 PyDict.get k (commands w') = PyDict.get k (commands w)) /\
      (forall t c h,
          first_match t (PyDict.items (commands w)) = Some (c, h) ->
          first_match t (PyDict.items (commands w')) =
            Some (c, if String.eqb (lower command) c then handler else h)))
  /\
  (forall (w : World) (p q p' : string) (h1 h2 h3 : Handler)
          (result : RecognitionResult),
      commands w = [] ->
      lower p <> lower q ->
      lower p' = lower p ->
      let w3 := final (register_command p' h3
                  (final (register_command q h2
                     (final (register_command p h1 w))))) in
      let t := normalize (get_text_default result) in
      PyDict.items (commands w3) = [(lower p, h3); (lower q, h2)] /\
      (str_in (lower p) t = true -> t <> lower p -> t <> lower q ->
       fired (events (process_result call result w3)) = [h3])).
Proof.
  split.
  - intros w command handler Hin w'. subst w'.
    rewrite commands_after_register.
    split; [now apply keys_set_present|].
    split; [apply get_set_same|].
    split; [intros k Hk; now apply get_set_other|].
    intros t c h Hf. unfold PyDict.items in *. now apply first_match_set.
  - intros w p q p' h1 h2 h3 result Hempty Hpq Hp' w3 t.
    assert (Hitems : PyDict.items (commands w3) = [(lower p, h3); (lower q, h2)]).
    { subst w3. rewrite !commands_after_register, Hempty, Hp'. simpl.
      destruct (String.eqb_spec (lower q) (lower p)) as [E|_]; [congruence|].
      simpl. now rewrite String.eqb_refl. }
    split; [exact Hitems|].
    intros Hin Hnp Hnq.
    assert (Hne : t <> EmptyString).
    { intros Ht. rewrite Ht in Hin, Hnp.
      destruct (lower p); simpl in Hin; [congruence | discriminate]. }
    assert (Hget : PyDict.get t (commands w3) = None).
    { unfold PyDict.items in Hitems. rewrite Hitems. simpl.
      destruct (String.eqb_spec t (lower p)); [contradiction|].
      destruct (String.eqb_spec t (lower q)); [contradiction|]. reflexivity. }
    rewrite (process_result_partial call result w3 Hne Hget). fold t.
    rewrite Hitems. unfold first_match. simpl. now rewrite Hin.
Qed.

End RouterClaims.

(** * The claims on the controller, the decode loop and file recognition *)
Section PipelineClaims.

Context {Handler : Type} {D : Type} `{KaldiRecognizer D}.
Local Abbreviation World := (World Handler D).
Local Abbreviation M := (M Handler D).
Implicit Types (w : World) (wf : Wave_read)
         (callback : option (RecognitionResult -> M unit)).

(** C3.  In a turn of the decode loop, a frame the decoder does not
    accept (a partial result) is only logged: nothing is handed to the
    callback and no handler fires.  Whatever a turn hands to the
    callback is the final result of a frame the decoder accepted, and
    its text is non-empty; the same holds over a whole run of the
    worker. *)
Theorem partial_never_dispatched callback w :
  plain_callback callback ->
  (forall data q d d1 p d2,
      audio_queue w = data :: q ->
      recognizer w = Some d ->
      AcceptWaveform d data = (false, d1) ->
      PartialResult d1 = (p, d2) ->
      outcome (process_audio_step callback w) = Returned tt /\
      handed (events (process_audio_step callback w)) = [] /\
      fired (events (process_audio_step callback w)) = [] /\
      logged INFO (events (process_audio_step callback w)) = []) /\
  (forall res,
      In res (handed (events (process_audio_step callback w))) ->
      exists data q d,
        audio_queue w = data :: q /\
        recognizer w = Some d /\
        fst (AcceptWaveform d data) = true /\
        res = fst (Result (snd (AcceptWaveform d data))) /\
        get_truthy (text res) = true) /\
  (forall schedule,
      Forall (fun res => get_truthy (text res) = true)
             (handed (events (_process_audio callback schedule w)))).
Proof.
  intros Hcb. split; [|split].
  - intros data q d d1 p d2 Hq Hr Hacc Hp.
    rewrite (process_audio_step_partial callback w Hq Hr Hacc Hp).
    unfold outcome, events. simpl.
    destruct (partial p) as [s|]; [destruct (truthy s)|]; repeat split.
  - intros res Hin.
    rewrite (process_audio_step_handed w Hcb) in Hin.
    destruct (audio_queue w) as [|data q]; [destruct Hin|].
    destruct (recognizer w) as [d|]; [|destruct Hin].
    exists data, q, d. split; [reflexivity|]. split; [reflexivity|].
    unfold handed_by_frame in Hin.
    destruct (AcceptWaveform d data) as [[|] d1]; [|destruct Hin].
    simpl. destruct (Result d1) as [result d2].
    destruct callback; [|destruct Hin].
    destruct (get_truthy (text result)) eqn:E; [|destruct Hin].
    destruct Hin as [<-|[]]. auto.
  - intros schedule. now apply process_audio_handed_truthy.
Qed.

(** C4.  [start_listening] without a recognizer logs the error, returns
    without raising and changes nothing: an idle pipeline stays idle, no
    stream is opened and no worker is started; so it is for the freshly
    constructed object. *)
Theorem start_without_recognizer callback w :
  recognizer w = None ->
  outcome (start_listening callback w) = Returned tt /\
  logged ERROR (events (start_listening callback w))
    = [RecognizerNotInitialized] /\
  final (start_listening callback w) = w /\
  (Idle w -> Idle (final (start_listening callback w))) /\
  (forall rate bufsize device_ok,
      w = init rate bufsize None device_ok ->
      Idle (final (start_listening callback w)) /\
      threads (final (start_listening callback w)) = 0%nat /\
      open_streams (audio (final (start_listening callback w))) = 0%nat).
Proof.
  intros Hr. rewrite (start_listening_no_recognizer callback w Hr).
  unfold outcome, final, events. simpl.
  split; [reflexivity|]. split; [reflexivity|]. split; [reflexivity|].
  split; [auto|].
  intros rate bufsize device_ok ->. repeat split.
Qed.

(** C5, as amended.  For a file that [wave.open] opens and whose
    container is not mono, not 16-bit or not at the configured rate,
    [recognize_from_file] returns the empty string without raising and
    leaves the heap as it was; it logs the format error when a recognizer
    is available, and logs nothing when there is none.  For a file that
    [wave.open] refuses, the exception goes to the caller, nothing being
    logged or changed, when a recognizer is available; without one the
    call returns the empty string before the file is opened. *)
Theorem bad_format_returns_empty wf w :
  nchannels wf <> 1%Z \/ sampwidth wf <> 2%Z \/ framerate wf <> sample_rate w ->
  (outcome (recognize_from_file (Returned wf) w) = Returned EmptyString /\
   final (recognize_from_file (Returned wf) w) = w /\
   (recognizer w <> None ->
    events (recognize_from_file (Returned wf) w)
      = [Log ERROR AudioFileMustBeMonoPCM]) /\
   (recognizer w = None ->
    events (recognize_from_file (Returned wf) w) = [])) /\
  (forall e,
      final (recognize_from_file (Raised e) w) = w /\
      events (recognize_from_file (Raised e) w) = [] /\
      (recognizer w <> None ->
       outcome (recognize_from_file (Raised e) w) = Raised e) /\
      (recognizer w = None ->
       outcome (recognize_from_file (Raised e) w) = Returned EmptyString)).
Proof.
  intros Hbad.
  assert (Hnv : ~ valid_format wf w) by (intros (? & ? & ?); tauto).
  destruct (recognizer w) as [d|] eqn:Hr.
  - rewrite (recognize_from_file_bad_format Hr Hnv).
    split; [repeat split; auto; discriminate|].
    intros e. rewrite (@recognize_from_file_not_opened _ _ _ e w d Hr).
    repeat split; auto. discriminate.
  - rewrite (recognize_from_file_no_recognizer (Returned wf) w Hr).
    split; [repeat split; auto; congruence|].
    intros e. rewrite (recognize_from_file_no_recognizer (Raised e) w Hr).
    repeat split; auto. congruence.
Qed.

(** C6.  With a recognizer, on a mono 16-bit file at the configured
    rate, [recognize_from_file] returns, without raising or logging, the
    texts joined by single spaces, where the texts are: in file order,
    the non-empty text of the result of every chunk the decoder
    accepted, then the non-empty text of the decoder's final result.
    The chunks fed make up the data in order, none is empty, and for a
    positive buffer size each but the last holds exactly that many
    frames. *)
Theorem valid_file_joined_texts wf w d :
  recognizer w = Some d ->
  valid_format wf w ->
  let n := buffer_size w in
  let cs := file_chunks n (wave_data wf) in
  let '(texts, d1) := collect d cs [] in
  let '(final_result, d2) := FinalResult d1 in
  recognize_from_file (Returned wf) w =
    (Returned (join " " (append_text texts final_result)),
     set_recognizer (Some d2) w, []) /\
  (n <> 0%Z -> List.concat cs = wave_data wf) /\
  Forall (fun c => c <> []) cs /\
  ((0 < n)%Z ->
   forall init last,
     cs = init ++ [last] ->
     Forall (fun c => List.length c = Z.to_nat (n * 2)) init /\
     (1 <= List.length last <= Z.to_nat (n * 2))%nat).
Proof.
  intros Hr Hv n cs.
  pose proof (recognize_from_file_valid Hr Hv) as Hrun.
  unfold recognized_text in Hrun. fold n cs in Hrun.
  destruct (collect d cs []) as [texts d1].
  destruct (FinalResult d1) as [final_result d2].
  split; [exact Hrun|]. subst cs. unfold file_chunks, chunks.
  destruct (Z.eqb_spec n 0) as [Hz|Hnz].
  - repeat split; try constructor; try lia.
  - destruct (Z.ltb_spec n 0) as [Hneg|Hpos].
    + split; [|split; [|lia]].
      * intros _. destruct (wave_data wf); simpl; [reflexivity|].
        now rewrite app_nil_r.
      * destruct (wave_data wf); repeat constructor. discriminate.
    + assert (Hk : (1 <= Z.to_nat (n * 2))%nat) by lia.
      split; [|split].
      * intros _. now apply chunks_upto_concat.
      * now apply chunks_upto_nonempty.
      * intros _ init last Heq.
        eapply chunks_upto_fixed_size; eassumption.
Qed.

(** C7.  [stop_listening] and [cleanup] never raise.  [stop_listening]
    on an idle pipeline returns at once: no state changes and nothing is
    logged.  Either call made a second time leaves the state the first
    call produced. *)
Theorem stop_and_cleanup_idempotent w :
  outcome (stop_listening w) = Returned tt /\
  outcome (cleanup w) = Returned tt /\
  (is_listening w = false -> stop_listening w = (Returned tt, w, [])) /\
  final (stop_listening (final (stop_listening w)))
    = final (stop_listening w) /\
  outcome (cleanup (final (cleanup w))) = Returned tt /\
  final (cleanup (final (cleanup w))) = final (cleanup w).
Proof.
  split; [apply stop_listening_returns|].
  split; [apply cleanup_returns|].
  split; [apply stop_listening_idle|].
  split; [|split; [apply cleanup_returns|]].
  - now rewrite (stop_listening_idle _ (stop_listening_clears_flag w)).
  - rewrite (cleanup_final (final (cleanup w))).
    rewrite (cleanup_final w).
    rewrite (stop_listening_idle
               (set_audio _ (final (stop_listening w)))
               (stop_listening_clears_flag w)).
    reflexivity.
Qed.

(** C8.  [start_listening] on a pipeline that is already listening
    returns without raising and changes nothing.  Hence when a first
    call on a not-listening pipeline has opened the device and started
    the worker, a second call leaves that state as it is: one stream
    more than before the two calls is open and one worker more has been
    started. *)
Theorem double_start_single_session callback1 callback2 w :
  (is_listening w = true ->
   outcome (start_listening callback2 w) = Returned tt /\
   final (start_listening callback2 w) = w) /\
  (is_listening w = false ->
   recognizer w <> None ->
   outcome (start_listening callback1 w) = Returned tt ->
   let w1 := final (start_listening callback1 w) in
   let w2 := final (start_listening callback2 w1) in
   outcome (start_listening callback2 w1) = Returned tt /\
   w2 = w1 /\
   is_listening w2 = true /\
   stream w2 = Some (mkStream true) /\
   open_streams (audio w2) = S (open_streams (audio w)) /\
   threads w2 = S (threads w)).
Proof.
  split.
  - intros Hl. destruct (recognizer w) as [d|] eqn:Hr.
    + now rewrite (start_listening_already callback2 w Hr Hl).
    + now rewrite (start_listening_no_recognizer callback2 w Hr).
  - intros Hl Hr Hok.
    destruct (recognizer w) as [d|] eqn:Hrec; [clear Hr | congruence].
    destruct (input_device_ok (audio w) && negb (terminated (audio w)))
      eqn:Hdev.
    + assert (Hsecond : forall w',
                 recognizer w' = Some d -> is_listening w' = true ->
                 start_listening callback2 w' =
                   (Returned tt, w', [Log WARNING AlreadyListening]))
        by (intros; eapply start_listening_already; eassumption).
      rewrite (start_listening_opens callback1 w Hrec Hl Hdev).
      unfold final, outcome. simpl.
      rewrite Hsecond by (simpl; auto). repeat split.
    + rewrite (start_listening_device_error callback1 w Hrec Hl Hdev) in Hok.
      discriminate.
Qed.

(** C10.  On an idle pipeline with a recognizer, when the capture device
    cannot be opened, [start_listening] raises to its caller with the
    listening flag already set and not reset: no stream is held, no
    worker was started, and every later [start_listening], whatever has
    become of the device since, returns at once without changing
    anything. *)
Theorem failed_open_leaves_listening callback w :
  recognizer w <> None ->
  Idle w ->
  input_device_ok (audio w) = false ->
  let w1 := final (start_listening callback w) in
  outcome (start_listening callback w) = Raised (Exc "OSError") /\
  is_listening w1 = true /\
  stream w1 = None /\
  threads w1 = threads w /\
  open_streams (audio w1) = open_streams (audio w) /\
  (forall callback' a,
      start_listening callback' (set_audio a w1) =
        (Returned tt, set_audio a w1, [Log WARNING AlreadyListening])).
Proof.
  intros Hr [Hl Hs] Hdev.
  destruct (recognizer w) as [d|] eqn:Hrec; [clear Hr | congruence].
  assert (Hd : input_device_ok (audio w) && negb (terminated (audio w)) = false)
    by now rewrite Hdev.
  rewrite (start_listening_device_error callback w Hrec Hl Hd). simpl.
  repeat split; auto.
  intros callback' a.
  eapply start_listening_already; [simpl; exact Hrec | reflexivity].
Qed.

End PipelineClaims.

(** * The claims on a concrete session *)
Section SessionRuns.

Import Session.

Lemma dispatch_tie_break_witness :
  PyDict.get (normalize "well hello spoky there") (commands registered) = None /\
  fired (events (process_result call (heard "well hello spoky there")
                                registered)) = ["hello"] /\
  outcome (process_result call (heard "well hello spoky there") registered)
    = fst (call "hello" registered) /\
  final (process_result call (heard "well hello spoky there") registered)
    = snd (call "hello" registered).
Proof.
  split; [reflexivity|].
  pose proof (dispatch_exact_then_first_substring
                call (heard "well hello spoky there") registered) as Hc.
  cbv zeta in Hc. destruct Hc as (_ & _ & Hpartial & _).
  apply (Hpartial [] "hello spoky" "hello" [("goodbye spoky", "goodbye")]).
  - vm_compute. discriminate.
  - reflexivity.
  - reflexivity.
  - reflexivity.
  - intros c' h' [].
Defined.

Lemma register_then_dispatch_witness :
  strip (lower "Hello Spoky") = lower "Hello Spoky" /\
  fired (events (process_result call (heard "hello spoky")
                   (final (register_command "Hello Spoky" "hello" fresh))))
    = ["hello"].
Proof.
  split; [reflexivity|].
  pose proof (@register_then_dispatch _ _ call "Hello Spoky" "hello"
                (heard "hello spoky") fresh eq_refl) as Hc.
  cbv zeta in Hc. destruct Hc as (_ & Hexact & _).
  apply Hexact.
  - vm_compute. discriminate.
  - reflexivity.
Defined.

(** A phrase registered earlier that also occurs in the text takes the
    dispatch: the text contains the newly registered phrase, yet it is
    the earlier handler that fires. *)
Lemma register_then_dispatch_shadowed :
  let w1 := final (register_command "hello" "first" fresh) in
  let w2 := final (register_command "Hello Spoky" "second" w1) in
  let result := heard "well hello spoky there" in
  str_in (normalize "Hello Spoky") (normalize (get_text_default result)) = true /\
  fired (events (process_result call result w2)) = ["first"] /\
  fired (events (process_result call result w2)) <> ["second"].
Proof.
  vm_compute. split; [reflexivity|]. split; [reflexivity | discriminate].
Qed.

(** What the router does with a phrase registered with a leading
    space: the stored phrase keeps the space and the bare word finds no
    command. *)
Example untrimmed_phrase_not_matched :
  commands (final (register_command " hello" "greet" fresh))
    = [(" hello", "greet")] /\
  events (process_result call (heard "hello")
            (final (register_command " hello" "greet" fresh)))
    = [Log INFO (ProcessingCommand "hello"); Log INFO (NoCommandFound "hello")].
Proof. split; reflexivity. Qed.

Lemma reregister_keeps_position_witness :
  let w3 := final (register_command "Hello Spoky" "again" registered) in
  PyDict.keys (commands w3) = ["hello spoky"; "goodbye spoky"] /\
  fired (events (process_result call (heard "goodbye spoky and hello spoky") w3))
    = ["again"].
Proof.
  pose proof (@reregister_keeps_position string nat call) as [Hgen Hscen].
  split.
  - apply (Hgen registered "Hello Spoky" "again").
    vm_compute. now left.
  - refine (proj2 (Hscen fresh "hello spoky" "goodbye spoky" "Hello Spoky"
                     "hello" "goodbye" "again"
                     (heard "goodbye spoky and hello spoky")
                     eq_refl _ eq_refl) eq_refl _ _);
      vm_compute; discriminate.
Defined.

(** C9, where the code departs from it.  The phrase [" Hello Spoky"]
    has the normalised form of the registered ["hello spoky"], yet
    registering it does not replace that phrase's handler: the key stored
    is the lowercased phrase with its leading space, it is new to the
    registry and goes to its end, and both the exact text and a text that
    contains the phrase still fire the first handler. *)
Theorem reregister_untrimmed_appends :
  let w3 := final (register_command " Hello Spoky" "third" registered) in
  normalize " Hello Spoky" = normalize "hello spoky" /\
  PyDict.items (commands registered)
    = [("hello spoky", "hello"); ("goodbye spoky", "goodbye")] /\
  PyDict.items (commands w3)
    = [("hello spoky", "hello"); ("goodbye spoky", "goodbye");
       (" hello spoky", "third")] /\
  fired (events (process_result call (heard "hello spoky") w3)) = ["hello"] /\
  fired (events (process_result call (heard "say hello spoky now") w3))
    = ["hello"].
Proof. vm_compute. repeat split. Qed.

Lemma partial_never_dispatched_witness :
  audio_queue streaming = [[Byte.x01; Byte.x02]] /\
  handed (events (process_audio_step (Some (process_result call)) streaming))
    = [] /\
  fired (events (process_audio_step (Some (process_result call)) streaming))
    = [].
Proof.
  split; [reflexivity|].
  pose proof (@partial_never_dispatched string nat scripted
                (Some (process_result call)) streaming
                (@process_result_plain _ _ call)) as (Hpartial & _ & _).
  destruct (Hpartial [Byte.x01; Byte.x02] [] 0%nat 0%nat
                     (mkResult None (Some "hel")) 0%nat
                     eq_refl eq_refl eq_refl eq_refl)
    as (_ & Hhanded & Hfired & _).
  split; assumption.
Defined.

Lemma start_without_recognizer_witness :
  recognizer no_model = None /\
  start_listening (Some (process_result call)) no_model
    = (Returned tt, no_model, [Log ERROR RecognizerNotInitialized]) /\
  Idle (final (start_listening (Some (process_result call)) no_model)).
Proof.
  split; [reflexivity|].
  pose proof (@start_without_recognizer string nat
                (Some (process_result call)) no_model eq_refl)
    as (_ & _ & _ & _ & Hinit).
  split; [reflexivity|].
  exact (proj1 (Hinit 16000%Z 4000%Z true eq_refl)).
Defined.

Lemma bad_format_returns_empty_witness :
  nchannels stereo <> 1%Z /\
  outcome (recognize_from_file (Returned stereo) fresh) = Returned EmptyString /\
  events (recognize_from_file (Returned stereo) fresh)
    = [Log ERROR AudioFileMustBeMonoPCM].
Proof.
  assert (Hch : nchannels stereo <> 1%Z) by (vm_compute; discriminate).
  split; [exact Hch|].
  pose proof (@bad_format_returns_empty string nat scripted stereo fresh
                (or_introl Hch)) as [(Hout & _ & Hlog & _) _].
  split; [exact Hout|].
  apply Hlog. vm_compute. discriminate.
Defined.

(** With no recognizer the call returns before the file is opened: a
    two-channel file yields the empty string and no log entry.  And with
    a recognizer, a file that [wave.open] refuses, as it does one that
    declares no channel, makes the call raise. *)
Lemma bad_format_not_logged_without_recognizer :
  nchannels stereo <> 1%Z /\
  recognize_from_file (Returned stereo) no_model
    = (Returned EmptyString, no_model, []) /\
  logged ERROR (events (recognize_from_file (Returned stereo) no_model)) = [] /\
  recognize_from_file (Raised (Exc "wave.Error")) fresh
    = (Raised (Exc "wave.Error"), fresh, []).
Proof.
  split; [vm_compute; discriminate|]. repeat split.
Qed.

Lemma valid_file_joined_texts_witness :
  valid_format mono fresh /\
  file_chunks (buffer_size fresh) (wave_data mono)
    = [[Byte.x00; Byte.x01; Byte.x02; Byte.x03];
       [Byte.x05; Byte.x06; Byte.x07; Byte.x08];
       [Byte.x00; Byte.x09]] /\
  outcome (recognize_from_file (Returned mono) fresh)
    = Returned "hello spoky goodbye spoky".
Proof.
  assert (Hv : valid_format mono fresh) by (repeat split).
  split; [exact Hv|]. split; [reflexivity|].
  pose proof (@valid_file_joined_texts string nat scripted mono fresh 0%nat
                eq_refl Hv) as Hc.
  cbv zeta in Hc.
  change (collect 0%nat (file_chunks (buffer_size fresh) (wave_data mono)) [])
    with (["hello spoky"], 2%nat) in Hc.
  cbv iota beta in Hc.
  change (FinalResult 2%nat) with (mkResult (Some "goodbye spoky") None, 2%nat)
    in Hc.
  cbv iota beta in Hc.
  destruct Hc as (Hrun & _). rewrite Hrun. reflexivity.
Defined.

Lemma stop_and_cleanup_idempotent_witness :
  stop_listening fresh = (Returned tt, fresh, []) /\
  final (cleanup (final (cleanup started))) = final (cleanup started).
Proof.
  split.
  - pose proof (@stop_and_cleanup_idempotent string nat fresh)
      as (_ & _ & Hidle & _).
    apply Hidle. reflexivity.
  - pose proof (@stop_and_cleanup_idempotent string nat started)
      as (_ & _ & _ & _ & _ & Htwice).
    exact Htwice.
Defined.

Lemma double_start_single_session_witness :
  let w2 := final (start_listening None
                     (final (start_listening None fresh))) in
  open_streams (audio w2) = 1%nat /\ threads w2 = 1%nat.
Proof.
  pose proof (@double_start_single_session string nat None None fresh)
    as (_ & Htwo).
  assert (Hrec : recognizer fresh <> None) by (vm_compute; discriminate).
  destruct (Htwo eq_refl Hrec eq_refl) as (_ & _ & _ & _ & Hopen & Hthreads).
  split; assumption.
Defined.

Lemma failed_open_leaves_listening_witness :
  outcome (start_listening None no_device) = Raised (Exc "OSError") /\
  is_listening (final (start_listening None no_device)) = true /\
  start_listening None (final (start_listening None no_device))
    = (Returned tt, final (start_listening None no_device),
       [Log WARNING AlreadyListening]).
Proof.
  assert (Hrec : recognizer no_device <> None) by (vm_compute; discriminate).
  pose proof (@failed_open_leaves_listening string nat None no_device
                Hrec (conj eq_refl eq_refl) eq_refl) as Hc.
  cbv zeta in Hc. destruct Hc as (Hout & Hflag & _ & _ & _ & Hlater).
  split; [exact Hout|]. split; [exact Hflag|].
  exact (Hlater None (audio (final (start_listening None no_device)))).
Defined.

End SessionRuns.

(** * Further properties of the router *)
Section RouterMore.

Context {Handler : Type} {D : Type}.
Local Abbreviation World := (World Handler D).
Variable call : Handler -> World -> Outcome unit * World.
Implicit Types (w : World) (d : PyDict.dict Handler) (h : Handler).

Lemma lower_char_idem c : lower_char (lower_char c) = lower_char c.
Proof.
  destruct c as [[] [] [] [] [] [] [] []]; reflexivity.
Qed.

Lemma lower_idem s : lower (lower s) = lower s.
Proof.
  induction s as [|c s IH]; simpl; [reflexivity|].
  now rewrite lower_char_idem, IH.
Qed.

Lemma prefix_refl s : prefix s s = true.
Proof.
  induction s as [|c s IH]; simpl; [reflexivity|].
  destruct (ascii_dec c c); [exact IH | congruence].
Qed.

Lemma str_in_refl s : str_in s s = true.
Proof.
  destruct s as [|c s]; [reflexivity|]. cbn [str_in].
  now rewrite prefix_refl.
Qed.

Lemma get_Some_In d k v : PyDict.get k d = Some v -> In (k, v) d.
Proof.
  induction d as [|[k' v'] d IH]; simpl; [discriminate|].
  destruct (String.eqb_spec k k') as [->|_].
  - intros [= ->]. now left.
  - intros Hg. right. now apply IH.
Qed.

Lemma first_match_In t d c h :
  first_match t d = Some (c, h) -> In (c, h) d /\ str_in c t = true.
Proof. unfold first_match. intros Hf. now apply find_some in Hf. Qed.

Lemma first_match_None_set t d k v :
  str_in k t = false ->
  first_match t d = None -> first_match t (PyDict.set k v d) = None.
Proof.
  intros Hk. unfold first_match.
  induction d as [|[k0 v0] d IH]; simpl.
  - now rewrite Hk.
  - destruct (str_in k0 t) eqn:E; [discriminate|]. intros Hf.
    destruct (String.eqb k k0); simpl; rewrite E; auto.
Qed.

Lemma first_match_set_unrelated t d k v :
  str_in k t = false ->
  first_match t (PyDict.set k v d) = first_match t d.
Proof.
  intros Hk. destruct (first_match t d) as [[c h]|] eqn:Hf.
  - rewrite (first_match_set t d k v Hf).
    destruct (String.eqb_spec k c) as [->|_]; [|reflexivity].
    apply first_match_In in Hf. destruct Hf as [_ Hc]. congruence.
  - now apply first_match_None_set.
Qed.

(** The events of a dispatch are those read off the registry. *)
Lemma process_result_events result w :
  events (process_result call result w)
    = dispatch_events (normalize (get_text_default result)) (commands w).
Proof.
  unfold dispatch_events.
  destruct (truthy (normalize (get_text_default result))) eqn:Ht; simpl.
  - assert (Hne : normalize (get_text_default result) <> EmptyString)
      by (intros E; rewrite E in Ht; discriminate).
    destruct (PyDict.get (normalize (get_text_default result)) (commands w))
      as [h|] eqn:Hget.
    + apply (process_result_exact call result w Hne Hget).
    + unfold process_result. fold (normalize (get_text_default result)).
      rewrite Ht. simpl.
      set (t := normalize (get_text_default result)) in *.
      unfold bind at 1. unfold logger at 1, emit at 1. simpl.
      unfold bind at 1. unfold gets at 1. simpl. rewrite Hget.
      destruct (partial_matches_first call t (PyDict.items (commands w)) w)
        as (Hev & Hnone & Hsome).
      unfold bind at 1.
      destruct (first_match t (PyDict.items (commands w))) as [[c h]|] eqn:Hfm.
      * destruct (partial_matches call t (PyDict.items (commands w)) w)
          as [[[b|e] w1] ev1] eqn:Hpm; unfold events in Hev; simpl in Hev;
          subst ev1.
        -- destruct b; [reflexivity|].
           exfalso. apply Hsome; [congruence | reflexivity].
        -- reflexivity.
      * rewrite (Hnone eq_refl). reflexivity.
  - assert (He : normalize (get_text_default result) = EmptyString)
      by (destruct (normalize (get_text_default result)); [reflexivity | discriminate]).
    now rewrite (process_result_empty call result w He).
Qed.

Lemma keys_set_cases d k v :
  PyDict.keys (PyDict.set k v d) = PyDict.keys d \/
  PyDict.keys (PyDict.set k v d) = PyDict.keys d ++ [k].
Proof.
  destruct (in_dec string_dec k (PyDict.keys d)) as [Hin|Hn].
  - left. now apply keys_set_present.
  - right. rewrite set_absent by assumption. unfold PyDict.keys.
    now rewrite map_app.
Qed.

Lemma registry_ok_register command h w :
  registry_ok (commands w) ->
  registry_ok (commands (final (register_command command h w))).
Proof.
  intros [Hnd Hlow]. rewrite commands_after_register. split.
  - now apply keys_set_NoDup.
  - destruct (keys_set_cases (commands w) (lower command) h) as [-> | ->];
      [exact Hlow|].
    apply Forall_app. split; [exact Hlow|].
    constructor; [apply lower_idem | constructor].
Qed.

(** X1.  Whatever is registered, in whatever order, on a registry that
    holds no phrase twice and only lower-case phrases, the registry stays
    so; hence it never holds two phrases that differ only in letter
    case. *)
Theorem registry_stays_case_folded (rs : list (string * Handler)) w :
  registry_ok (commands w) ->
  registry_ok (commands (register_all rs w)) /\
  (forall k1 k2,
      In k1 (PyDict.keys (commands (register_all rs w))) ->
      In k2 (PyDict.keys (commands (register_all rs w))) ->
      lower k1 = lower k2 -> k1 = k2).
Proof.
  intros Hok.
  assert (Hall : registry_ok (commands (register_all rs w))).
  { revert w Hok. induction rs as [|[command h] rs IH]; intros w Hok; simpl.
    - exact Hok.
    - apply IH. now apply registry_ok_register. }
  split; [exact Hall|].
  destruct Hall as [_ Hlow]. rewrite Forall_forall in Hlow.
  intros k1 k2 H1 H2 Heq.
  rewrite <- (Hlow k1 H1), <- (Hlow k2 H2). exact Heq.
Qed.

(** X2.  Registering a phrase changes nothing for a text that does not
    contain it: such a text is dispatched, and logged, exactly as
    before. *)
Theorem register_leaves_other_texts
        (command : string) (handler : Handler)
        (result : RecognitionResult) w :
  str_in (lower command) (normalize (get_text_default result)) = false ->
  events (process_result call result
            (final (register_command command handler w)))
    = events (process_result call result w).
Proof.
  intros Hout.
  rewrite !process_result_events, commands_after_register.
  set (t := normalize (get_text_default result)) in *.
  assert (Hne : t <> lower command).
  { intros E. rewrite <- E, str_in_refl in Hout. discriminate. }
  unfold dispatch_events. rewrite (get_set_other (commands w) handler Hne).
  unfold PyDict.items. rewrite first_match_set_unrelated by exact Hout.
  reflexivity.
Qed.

(** X3.  A dispatch only ever fires a handler that is registered, under a
    phrase that occurs in the normalised text, and then it is the only
    one fired. *)
Theorem fired_handler_is_registered (result : RecognitionResult) w h :
  In h (fired (events (process_result call result w))) ->
  fired (events (process_result call result w)) = [h] /\
  exists command,
    In (command, h) (PyDict.items (commands w)) /\
    str_in command (normalize (get_text_default result)) = true.
Proof.
  rewrite process_result_events. unfold dispatch_events.
  set (t := normalize (get_text_default result)).
  destruct (truthy t); simpl; [|tauto].
  destruct (PyDict.get t (commands w)) as [h0|] eqn:Hget; simpl.
  - intros [<-|[]]. split; [reflexivity|].
    exists t. split; [now apply get_Some_In | apply str_in_refl].
  - destruct (first_match t (PyDict.items (commands w))) as [[c h0]|] eqn:Hf;
      simpl; [|tauto].
    intros [<-|[]]. split; [reflexivity|].
    exists c. now apply first_match_In.
Qed.

(** X4.  A non-empty normalised text is never dropped silently: either
    one handler fires, or the no-command line is logged, and never
    both. *)
Theorem dispatch_fires_or_logs_no_match (result : RecognitionResult) w :
  normalize (get_text_default result) <> EmptyString ->
  let t := normalize (get_text_default result) in
  let evs := events (process_result call result w) in
  (fired evs = [] <-> In (Log INFO (NoCommandFound t)) evs) /\
  (fired evs <> [] -> exists h, fired evs = [h]).
Proof.
  intros Hne t evs. subst evs. rewrite process_result_events.
  fold t. unfold dispatch_events.
  assert (Ht : truthy t = true) by (apply truthy_nonempty; exact Hne).
  rewrite Ht. simpl.
  destruct (PyDict.get t (commands w)) as [h0|]; simpl.
  - split; [split|].
    + discriminate.
    + intros [E|[E|[E|[]]]]; discriminate.
    + intros _. now exists h0.
  - destruct (first_match t (PyDict.items (commands w))) as [[c h0]|]; simpl.
    + split; [split|].
      * discriminate.
      * intros [E|[E|[E|[]]]]; discriminate.
      * intros _. now exists h0.
    + split; [split|]; auto. congruence.
Qed.

End RouterMore.

(** * The agent's registry *)
Section AgentMore.

Context {D : Type}.
Local Abbreviation World := (World AgentCommand D).
Variable call : AgentCommand -> World -> Outcome unit * World.

Lemma agent_registry (w : World) :
  commands w = [] ->
  commands (snd (fst (_register_voice_commands true w)))
    = [("hello spoky", cmd_hello); ("goodbye spoky", cmd_goodbye);
       ("status", cmd_status); ("help", cmd_help)].
Proof.
  intros Hc. unfold _register_voice_commands, register_command. run.
  rewrite Hc. reflexivity.
Qed.

(** X5.  With the four commands the agent registers on a new router,
    every recognised text is dispatched by containment alone, in the
    order of registration: hello, then goodbye, then status, then help;
    an exact match never selects anything else. *)
Theorem agent_dispatch_table (result : RecognitionResult) (w : World) :
  commands w = [] ->
  fired (events (process_result call result
                   (snd (fst (_register_voice_commands true w)))))
    = agent_command (normalize (get_text_default result)).
Proof.
  intros Hc. rewrite process_result_events, (agent_registry w Hc).
  set (t := normalize (get_text_default result)).
  unfold dispatch_events, agent_command.
  destruct (truthy t); simpl; [|reflexivity].
  destruct (String.eqb_spec t "hello spoky") as [->|_]; [reflexivity|].
  destruct (String.eqb_spec t "goodbye spoky") as [->|_]; [reflexivity|].
  destruct (String.eqb_spec t "status") as [->|_]; [reflexivity|].
  destruct (String.eqb_spec t "help") as [->|_]; [reflexivity|].
  unfold first_match. cbn [find fst PyDict.items].
  destruct (str_in "hello spoky" t); [reflexivity|].
  destruct (str_in "goodbye spoky" t); [reflexivity|].
  destruct (str_in "status" t); [reflexivity|].
  destruct (str_in "help" t); reflexivity.
Qed.

End AgentMore.

(** * Further properties of the controller *)
Section ControllerMore.

Context {Handler : Type} {D : Type} `{KaldiRecognizer D}.
Local Abbreviation World := (World Handler D).
Local Abbreviation M := (M Handler D).
Implicit Types (w : World) (callback : option (RecognitionResult -> M unit)).

(** X6.  On an idle pipeline, a start that opens the device followed by
    a stop gives back everything it took: the flag is down, the stream is
    closed and forgotten, as many streams are open as before.  Only the
    worker's handle stays, the worker not being joined. *)
Theorem start_then_stop_releases callback w d :
  recognizer w = Some d ->
  Idle w ->
  input_device_ok (audio w) && negb (terminated (audio w)) = true ->
  outcome (start_listening callback w) = Returned tt /\
  stop_listening (final (start_listening callback w)) =
    (Returned tt, set_thread (Some (threads w)) (S (threads w)) w,
     [Log INFO StoppedListening]).
Proof.
  intros Hr [Hl Hs] Hdev.
  rewrite (start_listening_opens callback w Hr Hl Hdev).
  split; [reflexivity|].
  unfold stop_listening. run.
  destruct w as [sr bs il q r a s pt th c]. destruct a as [ok n t].
  simpl in *. subst. reflexivity.
Qed.

(** X7.  A start that failed on the device is undone by a stop: the
    pipeline is exactly as it was before the failed start, so that a new
    start, once the device can be opened, goes through. *)
Theorem stop_recovers_failed_start callback w d :
  recognizer w = Some d ->
  Idle w ->
  input_device_ok (audio w) = false ->
  stop_listening (final (start_listening callback w)) =
    (Returned tt, w, [Log INFO StoppedListening]) /\
  (forall callback' n,
      let w' := set_audio (mkPyAudio true n false)
                  (final (stop_listening (final (start_listening callback w)))) in
      outcome (start_listening callback' w') = Returned tt /\
      stream (final (start_listening callback' w')) = Some (mkStream true)).
Proof.
  intros Hr [Hl Hs] Hdev.
  assert (Hd : input_device_ok (audio w) && negb (terminated (audio w)) = false)
    by now rewrite Hdev.
  rewrite (start_listening_device_error callback w Hr Hl Hd).
  assert (Hstop : stop_listening (final (Returned tt : Outcome unit,
                                         set_is_listening true w,
                                         @nil (Event Handler)))
                  = (Returned tt, w, [Log INFO StoppedListening])).
  { unfold stop_listening. run. rewrite Hs.
    destruct w as [sr bs il q r a s pt th c]. simpl in *. subst. reflexivity. }
  unfold final in *. simpl in *. rewrite Hstop. split; [reflexivity|].
  intros callback' n. simpl.
  erewrite start_listening_opens; [split; reflexivity | exact Hr | exact Hl
                                   | reflexivity].
Qed.

Lemma one_stream_call (c : @ControllerCall Handler D) w :
  one_stream w -> one_stream (final (controller_call c w)).
Proof.
  unfold one_stream.
  destruct w as [sr bs il q r a s pt th c0]. destruct a as [ok0 n t].
  destruct c as [callback| | |ok]; simpl;
    unfold start_listening, cleanup, stop_listening; run;
    destruct r, il, s, ok0, t; simpl;
    intuition (subst; try reflexivity; try congruence).
Qed.

Lemma one_stream_run (calls : list (@ControllerCall Handler D)) w :
  one_stream w -> one_stream (controller_run calls w).
Proof.
  revert w. induction calls as [|c calls IH]; intros w Hw; simpl.
  - exact Hw.
  - apply IH. now apply one_stream_call.
Qed.

(** X8.  Whatever series of starts, stops and cleanups a client makes on
    a newly built object, going on after exceptions, and however the
    device comes and goes: at most one capture stream is open, it is the
    one the object holds, and a pipeline that is not listening holds
    none. *)
Theorem at_most_one_stream (rate bufsize : Z) (model : option D)
        (device_ok : bool) (calls : list (@ControllerCall Handler D)) :
  let w := controller_run calls (init rate bufsize model device_ok) in
  (open_streams (audio w) <= 1)%nat /\
  (stream w <> None <-> open_streams (audio w) = 1%nat) /\
  (is_listening w = false ->
   stream w = None /\ open_streams (audio w) = 0%nat).
Proof.
  intros w.
  assert (Hinv : one_stream w).
  { subst w. apply one_stream_run. unfold one_stream. reflexivity. }
  unfold one_stream in Hinv.
  destruct (stream w) as [s|].
  - destruct Hinv as [Hl Ho]. rewrite Ho.
    split; [lia|]. split; [split; [reflexivity | discriminate]|].
    congruence.
  - rewrite Hinv. split; [lia|]. split; [split; congruence|]. auto.
Qed.

End ControllerMore.

(** * Further properties of the decode loop *)
Section DecodeLoopMore.

Context {Handler : Type} {D : Type} `{KaldiRecognizer D}.
Local Abbreviation World := (World Handler D).
Local Abbreviation M := (M Handler D).
Implicit Types (w : World) (callback : option (RecognitionResult -> M unit)).

Lemma bind_returned {A B} (m : M A) (k : A -> M B) w a w1 ev1 :
  m w = (Returned a, w1, ev1) ->
  bind m k w = (outcome (k a w1), final (k a w1), ev1 ++ events (k a w1)).
Proof.
  intros Hm. unfold bind. rewrite Hm.
  destruct (k a w1) as [[o w2] ev2]. reflexivity.
Qed.

Lemma bind_raised {A B} (m : M A) (k : A -> M B) w e w1 ev1 :
  m w = (Raised e, w1, ev1) -> bind m k w = (Raised e, w1, ev1).
Proof. intros Hm. unfold bind. now rewrite Hm. Qed.


Lemma bind_outcome {A B} (m : M A) (k : A -> M B) w a w1 ev1 :
  m w = (Returned a, w1, ev1) -> outcome (bind m k w) = outcome (k a w1).
Proof. intros Hm. now rewrite (@bind_returned _ _ _ _ _ _ _ _ Hm). Qed.

(** A start issued from another thread, seen from the worker. *)
Lemma concurrent_restart w :
  concurrent Restart w =
    (Returned tt, final (start_listening None w),
     events (start_listening None w)).
Proof.
  simpl. destruct (start_listening None w) as [[o w1] ev1]. reflexivity.
Qed.


Lemma concurrent_returns (c : Concurrent) w :
  outcome (concurrent c w) = Returned tt.
Proof.
  destruct c as [in_data status| |].
  - simpl. unfold _audio_callback. run. destruct (status =? 0)%Z; reflexivity.
  - apply stop_listening_returns.
  - now rewrite concurrent_restart.
Qed.

Lemma concurrent_run (c : Concurrent) w :
  concurrent c w =
    (Returned tt, final (concurrent c w), events (concurrent c w)).
Proof.
  pose proof (concurrent_returns c w) as Hr.
  destruct (concurrent c w) as [[o w1] ev1].
  unfold outcome in Hr. simpl in Hr. now subst o.
Qed.

Lemma concurrently_returns (cs : list Concurrent) w :
  outcome (concurrently cs w) = Returned tt.
Proof.
  revert w. induction cs as [|c cs IH]; intros w; simpl; [reflexivity|].
  rewrite (@bind_outcome _ _ _ _ _ _ _ _ (concurrent_run c w)). apply IH.
Qed.

Lemma concurrently_run (cs : list Concurrent) w :
  concurrently cs w =
    (Returned tt, final (concurrently cs w), events (concurrently cs w)).
Proof.
  pose proof (concurrently_returns cs w) as Hr.
  destruct (concurrently cs w) as [[o w1] ev1].
  unfold outcome in Hr. simpl in Hr. now subst o.
Qed.









(** One frame through the [try] body under a callback that keeps its
    hands off the queue, the decoder and the flag. *)
Lemma decode_frame_state callback data w :
  transparent_callback callback ->
  audio_queue (final (decode_frame callback data w)) = audio_queue w /\
  is_listening (final (decode_frame callback data w)) = is_listening w /\
  recognizer (final (decode_frame callback data w)) =
    match recognizer w with
    | Some d => Some (decoder_step d data)
    | None => None
    end.
Proof.
  intros Hcb. remember (decode_frame callback data w) as r eqn:Er.
  revert Er. unfold decode_frame, decoder_step.
  unfold bind at 1, gets at 1. simpl.
  destruct (recognizer w) as [d|] eqn:Hr;
    [|run; intros ->; simpl; auto].
  destruct (AcceptWaveform d data) as [[|] d1].
  - destruct (Result d1) as [result d2].
    destruct callback as [cb|]; [|run; intros ->; simpl; auto].
    destruct (get_truthy (text result)); [|run; intros ->; simpl; auto].
    run.
    destruct (Hcb cb result
      (mkWorld (sample_rate w) (buffer_size w) (is_listening w)
               (audio_queue w) (Some d2) (audio w) (stream w)
               (processing_thread w) (threads w) (commands w)) eq_refl)
      as (Hq & Hrec & Hl).
    unfold final in Hq, Hrec, Hl.
    match goal with
    | |- context [cb result ?x] => destruct (cb result x) as [[o w'] ev]
    end.
    simpl in *. intros ->. simpl. auto.
  - destruct (PartialResult d1) as [p d2]. run.
    destruct (partial p) as [s|]; [destruct (truthy s)|];
      intros ->; simpl; auto.
Qed.

(** The same under a callback of which only the flag is known. *)
Lemma decode_frame_flag callback data w :
  flag_keeping_callback callback ->
  is_listening (final (decode_frame callback data w)) = is_listening w.
Proof.
  intros Hcb. remember (decode_frame callback data w) as r eqn:Er.
  revert Er. unfold decode_frame.
  unfold bind at 1, gets at 1. simpl.
  destruct (recognizer w) as [d|] eqn:Hr;
    [|run; intros ->; simpl; auto].
  destruct (AcceptWaveform d data) as [[|] d1].
  - destruct (Result d1) as [result d2].
    destruct callback as [cb|]; [|run; intros ->; simpl; auto].
    destruct (get_truthy (text result)); [|run; intros ->; simpl; auto].
    run.
    pose proof (Hcb cb result
      (mkWorld (sample_rate w) (buffer_size w) (is_listening w)
               (audio_queue w) (Some d2) (audio w) (stream w)
               (processing_thread w) (threads w) (commands w)) eq_refl)
      as Hl.
    unfold final in Hl.
    match goal with
    | |- context [cb result ?x] => destruct (cb result x) as [[o w'] ev]
    end.
    simpl in *. intros ->. simpl. auto.
  - destruct (PartialResult d1) as [p d2]. run.
    destruct (partial p) as [s|]; [destruct (truthy s)|];
      intros ->; simpl; auto.
Qed.

Lemma transparent_keeps_flag callback :
  transparent_callback callback -> flag_keeping_callback callback.
Proof. intros Hcb cb r w Hc. now destruct (Hcb cb r w Hc) as (_ & _ & Hl). Qed.

Lemma process_audio_step_flag callback w :
  flag_keeping_callback callback ->
  is_listening (final (process_audio_step callback w)) = is_listening w.
Proof.
  intros Hcb. destruct (audio_queue w) as [|data q] eqn:Hq.
  - now rewrite (process_audio_step_empty callback w Hq).
  - rewrite (process_audio_step_frame callback w Hq), after_try_final.
    now rewrite (decode_frame_flag data (set_audio_queue q w) Hcb).
Qed.

(** One turn of the loop under a transparent callback: the head of the
    queue goes to the decoder, the rest of the queue stays. *)
Lemma process_audio_step_state callback w :
  transparent_callback callback ->
  is_listening (final (process_audio_step callback w)) = is_listening w /\
  match audio_queue w with
  | [] =>
      audio_queue (final (process_audio_step callback w)) = [] /\
      recognizer (final (process_audio_step callback w)) = recognizer w
  | data :: q =>
      audio_queue (final (process_audio_step callback w)) = q /\
      recognizer (final (process_audio_step callback w)) =
        match recognizer w with
        | Some d => Some (decoder_step d data)
        | None => None
        end
  end.
Proof.
  intros Hcb.
  split; [apply process_audio_step_flag; now apply transparent_keeps_flag|].
  destruct (audio_queue w) as [|data q] eqn:Hq.
  - rewrite (process_audio_step_empty callback w Hq). auto.
  - rewrite (process_audio_step_frame callback w Hq), after_try_final.
    destruct (decode_frame_state data (set_audio_queue q w) Hcb)
      as (Hq' & _ & Hr').
    rewrite Hq', Hr'. simpl. auto.
Qed.

(** What the [try] body can raise: the missing decoder, or what the
    callback raised. *)
Lemma decode_frame_raised callback data w e :
  outcome (decode_frame callback data w) = Raised e ->
  e = Exc "AttributeError" \/
  exists cb r w0, callback = Some cb /\ outcome (cb r w0) = Raised e.
Proof.
  unfold decode_frame. unfold bind at 1, gets at 1. simpl.
  destruct (recognizer w) as [d|]; [|run; intros [= <-]; now left].
  destruct (AcceptWaveform d data) as [[|] d1].
  - destruct (Result d1) as [result d2].
    destruct callback as [cb|]; [|run; discriminate].
    destruct (get_truthy (text result)); [|run; discriminate].
    run. intros Hraised. right. exists cb, result.
    match goal with
    | _ : context [cb result ?x] |- _ =>
        exists x; destruct (cb result x) as [[[u|e0] w'] ev]
    end; simpl in *; [discriminate | split; [reflexivity | exact Hraised]].
  - destruct (PartialResult d1) as [p d2]. run.
    destruct (partial p) as [s|]; [destruct (truthy s)|]; discriminate.
Qed.

(** A turn ends on an exception only when the callback raised one that
    is not an [Exception]. *)
Lemma process_audio_step_raised callback w e :
  outcome (process_audio_step callback w) = Raised e ->
  is_Exception e = false /\
  exists cb r w0, callback = Some cb /\ outcome (cb r w0) = Raised e.
Proof.
  destruct (audio_queue w) as [|data q] eqn:Hq.
  - rewrite (process_audio_step_empty callback w Hq). discriminate.
  - rewrite (process_audio_step_frame callback w Hq). intros Hraised.
    apply after_try_raised in Hraised. destruct Hraised as (Hdf & Hx & _).
    split; [exact Hx|].
    apply decode_frame_raised in Hdf. destruct Hdf as [-> | Hcb];
      [discriminate | exact Hcb].
Qed.

(** One turn of the worker while the flag is up: the wait, the turn, and
    the rest of the run unless the turn ended the worker. *)
Lemma process_audio_turn callback cs rest w :
  is_listening w = true ->
  let step := process_audio_step callback (final (concurrently cs w)) in
  _process_audio callback (cs :: rest) w =
    match outcome step with
    | Returned _ =>
        (outcome (_process_audio callback rest (final step)),
         final (_process_audio callback rest (final step)),
         events (concurrently cs w) ++ events step
           ++ events (_process_audio callback rest (final step)))
    | Raised e =>
        (Raised e, final step, events (concurrently cs w) ++ events step)
    end.
Proof.
  intros Hl step. cbn [_process_audio].
  assert (E : gets is_listening w = (Returned true, w, []))
    by (unfold gets; now rewrite Hl).
  rewrite (@bind_returned _ _ _ _ _ _ _ _ E).
  rewrite (@bind_returned _ _ _ _ _ _ _ _ (concurrently_run cs w)).
  subst step.
  destruct (process_audio_step callback (final (concurrently cs w)))
    as [[[u|e] w2] ev2] eqn:Es.
  - rewrite (@bind_returned _ _ _ _ _ _ _ _ Es).
    unfold outcome, final, events. simpl. reflexivity.
  - rewrite (@bind_raised _ _ _ _ _ _ _ _ Es).
    unfold outcome, final, events. simpl. reflexivity.
Qed.

Lemma process_audio_not_listening callback cs rest w :
  is_listening w = false ->
  _process_audio callback (cs :: rest) w = (Returned true, w, []).
Proof.
  intros Hl. cbn [_process_audio]. unfold bind, gets. simpl. now rewrite Hl.
Qed.

(** A turn on an accepted frame whose text is truthy is the callback on
    the result, seen through the two [except] clauses. *)
Lemma process_audio_step_accepted w data q d d1 result d2
      (cb : RecognitionResult -> M unit) :
  audio_queue w = data :: q ->
  recognizer w = Some d ->
  AcceptWaveform d data = (true, d1) ->
  Result d1 = (result, d2) ->
  get_truthy (text result) = true ->
  let r := cb result (set_recognizer (Some d2) (set_audio_queue q w)) in
  process_audio_step (Some cb) w =
    after_try (outcome r, final r,
               [Log INFO (RecognitionResultMsg result); Callback result]
                 ++ events r).
Proof.
  intros Hq Hr Hacc Hres Ht r.
  rewrite (process_audio_step_frame (Some cb) w Hq). f_equal.
  unfold decode_frame. unfold bind at 1, gets at 1. simpl.
  rewrite Hr, Hacc, Hres, Ht. run.
  subst r. unfold set_recognizer, set_audio_queue. simpl.
  match goal with
  | |- context [cb result ?x] => destruct (cb result x) as [[o w'] ev]
  end.
  destruct o; reflexivity.
Qed.

Lemma queue_Empty_is_Exception e :
  is_queue_Empty e = true -> is_Exception e = true.
Proof.
  destruct e as [name]. simpl. intros Hn.
  apply String.eqb_eq in Hn. subst name. reflexivity.
Qed.

(** A turn of the worker with the router as callback, on an accepted
    frame whose text is a registered phrase: the handler's run, seen
    through the two [except] clauses. *)
Lemma process_audio_step_exact
      (call : Handler -> World -> Outcome unit * World)
      w data q d d1 result d2 h :
  audio_queue w = data :: q ->
  recognizer w = Some d ->
  AcceptWaveform d data = (true, d1) ->
  Result d1 = (result, d2) ->
  normalize (get_text_default result) <> EmptyString ->
  PyDict.get (normalize (get_text_default result)) (commands w) = Some h ->
  let w2 := set_recognizer (Some d2) (set_audio_queue q w) in
  process_audio_step (Some (process_result call)) w =
    after_try
      (fst (call h w2), snd (call h w2),
       [Log INFO (RecognitionResultMsg result); Callback result;
        Log INFO (ProcessingCommand (normalize (get_text_default result)));
        Log INFO (ExecutingCommand (normalize (get_text_default result)));
        Invoke h]).
Proof.
  intros Hq Hr Hacc Hres Hne Hget w2.
  assert (Ht : get_truthy (text result) = true).
  { unfold get_text_default in Hne. destruct (text result) as [s|]; simpl.
    - destruct s; [exfalso; apply Hne; reflexivity | reflexivity].
    - exfalso. apply Hne. reflexivity. }
  rewrite (@process_audio_step_accepted w data q d d1 result d2
             (process_result call) Hq Hr Hacc Hres Ht).
  cbv zeta. fold w2.
  assert (Hget2 : PyDict.get (normalize (get_text_default result))
                             (commands w2) = Some h) by exact Hget.
  rewrite (process_result_exact_run call result w2 Hne Hget2).
  reflexivity.
Qed.

(** X9.  The worker ends on an exception only when the callback raised
    it and it is not an [Exception] ([SystemExit], [KeyboardInterrupt]).
    A turn whose wait times out returns in silence.  When the callback
    raises on a result: a [queue.Empty] ends the turn in silence, any
    other [Exception] ends it with the error logged after what the
    callback had emitted, and anything else leaves the loop. *)
Theorem worker_ends_only_on_base_exception callback :
  (forall schedule w e,
      outcome (_process_audio callback schedule w) = Raised e ->
      is_Exception e = false /\
      exists cb r w0, callback = Some cb /\ outcome (cb r w0) = Raised e) /\
  (forall w,
      audio_queue w = [] ->
      process_audio_step callback w = (Returned tt, w, [])) /\
  (forall w data q d d1 result d2 cb e w' evs,
      callback = Some cb ->
      audio_queue w = data :: q ->
      recognizer w = Some d ->
      AcceptWaveform d data = (true, d1) ->
      Result d1 = (result, d2) ->
      get_truthy (text result) = true ->
      cb result (set_recognizer (Some d2) (set_audio_queue q w))
        = (Raised e, w', evs) ->
      let emitted :=
        [Log INFO (RecognitionResultMsg result); Callback result] ++ evs in
      process_audio_step callback w =
        if is_queue_Empty e then (Returned tt, w', emitted)
        else if is_Exception e
             then (Returned tt, w',
                   emitted ++ [Log ERROR (ErrorProcessingAudio e)])
             else (Raised e, w', emitted)).
Proof.
  split; [|split].
  - intros schedule. induction schedule as [|cs rest IH]; intros w e.
    + discriminate.
    + destruct (is_listening w) eqn:Hl.
      * rewrite (@process_audio_turn callback cs rest w Hl). cbv zeta.
        destruct (outcome (process_audio_step callback
                             (final (concurrently cs w)))) as [u|e0] eqn:Eo.
        -- unfold outcome at 1. cbn [fst]. apply IH.
        -- unfold outcome at 1. cbn [fst]. intros [= <-].
           exact (@process_audio_step_raised callback _ e0 Eo).
      * rewrite (@process_audio_not_listening callback cs rest w Hl).
        discriminate.
  - intros w Hq. now apply process_audio_step_empty.
  - intros w data q d d1 result d2 cb e w' evs -> Hq Hr Hacc Hres Ht Hcb emitted.
    rewrite (@process_audio_step_accepted w data q d d1 result d2 cb
               Hq Hr Hacc Hres Ht).
    cbv zeta. rewrite Hcb. reflexivity.
Qed.



(** X12.  From decoder to handler: when the decoder accepts the frame at
    the head of the queue and the text of its result, normalised, is a
    registered phrase, the turn hands that one result to the router and
    fires that phrase's handler, once, and the heap after the turn is the
    one the handler leaves.  The turn returns when the handler returns.
    When the handler raises: on a [queue.Empty] the turn returns and logs
    no error; on any other [Exception] the turn returns and logs the
    error; on anything else the exception leaves the loop, unlogged. *)
Theorem recognized_phrase_fires_in_turn
        (call : Handler -> World -> Outcome unit * World)
        w data q d d1 result d2 h :
  audio_queue w = data :: q ->
  recognizer w = Some d ->
  AcceptWaveform d data = (true, d1) ->
  Result d1 = (result, d2) ->
  normalize (get_text_default result) <> EmptyString ->
  PyDict.get (normalize (get_text_default result)) (commands w) = Some h ->
  let w2 := set_recognizer (Some d2) (set_audio_queue q w) in
  let turn := process_audio_step (Some (process_result call)) w in
  handed (events turn) = [result] /\
  fired (events turn) = [h] /\
  final turn = snd (call h w2) /\
  (fst (call h w2) = Returned tt -> outcome turn = Returned tt) /\
  (forall e,
      fst (call h w2) = Raised e ->
      (is_queue_Empty e = true ->
       outcome turn = Returned tt /\
       ~ In (Log ERROR (ErrorProcessingAudio e)) (events turn)) /\
      (is_queue_Empty e = false ->
       is_Exception e = true ->
       outcome turn = Returned tt /\
       In (Log ERROR (ErrorProcessingAudio e)) (events turn)) /\
      (is_Exception e = false ->
       outcome turn = Raised e /\
       ~ In (Log ERROR (ErrorProcessingAudio e)) (events turn))).
Proof.
  intros Hq Hr Hacc Hres Hne Hget w2 turn. subst turn.
  rewrite (@process_audio_step_exact call w data q d d1 result d2 h
             Hq Hr Hacc Hres Hne Hget).
  cbv zeta. fold w2.
  rewrite after_try_handed, after_try_fired, after_try_final.
  split; [reflexivity|]. split; [reflexivity|]. split; [reflexivity|].
  split.
  - intros ->. reflexivity.
  - intros e ->. unfold after_try, outcome, events. cbn [fst snd].
    split; [|split].
    + intros ->. split; [reflexivity|].
      simpl. intuition discriminate.
    + intros -> ->. split; [reflexivity|].
      apply in_or_app. right. now left.
    + intros Hx.
      destruct (is_queue_Empty e) eqn:Hempty.
      * apply queue_Empty_is_Exception in Hempty. congruence.
      * rewrite Hx. split; [reflexivity|].
        simpl. intuition discriminate.
Qed.

End DecodeLoopMore.

(** * Further properties of file and single-buffer recognition *)
Section RecognitionMore.

Context {Handler : Type} {D : Type} `{KaldiRecognizer D}.
Local Abbreviation World := (World Handler D).
Local Abbreviation M := (M Handler D).
Implicit Types (w : World) (wf : Wave_read).

Lemma valid_format_dec wf w : {valid_format wf w} + {~ valid_format wf w}.
Proof.
  unfold valid_format.
  destruct (Z.eq_dec (nchannels wf) 1); [|right; tauto].
  destruct (Z.eq_dec (sampwidth wf) 2); [|right; tauto].
  destruct (Z.eq_dec (framerate wf) (sample_rate w)); [left | right]; tauto.
Qed.

Lemma set_recognizer_back w r :
  set_recognizer (recognizer w) (set_recognizer r w) = w.
Proof. destruct w; reflexivity. Qed.

Lemma file_chunks_nothing n data :
  data = [] \/ n = 0%Z -> file_chunks n data = [].
Proof.
  unfold file_chunks, chunks. intros [-> | ->]; [|reflexivity].
  destruct (n =? 0)%Z; [reflexivity|]. destruct (n <? 0)%Z; reflexivity.
Qed.

(** X13.  [recognize_from_file] is a side path.  It raises only what
    [wave.open] raised, and only when a recognizer is present; on a file
    that [wave.open] opens it returns, and without a recognizer it returns
    the empty string whatever the file.  In every case it dispatches
    nothing, hands nothing to a callback, and leaves the whole object as
    it was but for the state of the decoder. *)
Theorem file_recognition_touches_only_decoder
        (opened : Outcome Wave_read) w :
  (forall e,
      outcome (recognize_from_file opened w) = Raised e ->
      opened = Raised e /\ recognizer w <> None) /\
  (forall e,
      opened = Raised e ->
      recognizer w <> None ->
      recognize_from_file opened w = (Raised e, w, [])) /\
  (forall wf,
      opened = Returned wf ->
      exists s, outcome (recognize_from_file opened w) = Returned s) /\
  (recognizer w = None ->
   recognize_from_file opened w = (Returned EmptyString, w, [])) /\
  fired (events (recognize_from_file opened w)) = [] /\
  handed (events (recognize_from_file opened w)) = [] /\
  set_recognizer (recognizer w) (final (recognize_from_file opened w)) = w.
Proof.
  destruct (recognizer w) as [d|] eqn:Hr.
  - destruct opened as [wf|e0].
    + destruct (valid_format_dec wf w) as [Hv|Hnv].
      * rewrite (recognize_from_file_valid Hr Hv).
        destruct (recognized_text (buffer_size w) d (wave_data wf)) as [s d'].
        unfold outcome, events, final. simpl.
        split; [discriminate|]. split; [discriminate|].
        split; [now exists s|]. split; [discriminate|].
        split; [reflexivity|]. split; [reflexivity|].
        rewrite <- Hr. apply set_recognizer_back.
      * rewrite (recognize_from_file_bad_format Hr Hnv).
        unfold outcome, events, final. simpl.
        split; [discriminate|]. split; [discriminate|].
        split; [now exists EmptyString|]. split; [discriminate|].
        split; [reflexivity|]. split; [reflexivity|].
        now apply set_recognizer_same.
    + rewrite (@recognize_from_file_not_opened _ _ _ e0 w d Hr).
      unfold outcome, events, final. simpl.
      split; [intros e [= <-]; split; [reflexivity | discriminate]|].
      split; [intros e [= <-] _; reflexivity|].
      split; [discriminate|]. split; [discriminate|].
      split; [reflexivity|]. split; [reflexivity|].
      now apply set_recognizer_same.
  - rewrite (recognize_from_file_no_recognizer opened w Hr).
    unfold outcome, events, final. simpl.
    split; [discriminate|].
    split; [intros e _ Hn; now contradiction Hn|].
    split; [now exists EmptyString|]. split; [reflexivity|].
    split; [reflexivity|]. split; [reflexivity|].
    destruct w; simpl in *; subst; reflexivity.
Qed.

(** X14.  A valid file without data, or any valid file read with a
    buffer of zero frames, feeds the decoder nothing: the call returns
    the text of the decoder's final result, the empty string when it has
    none, and the decoder has only been asked for that final result. *)
Theorem nothing_fed_returns_final_text wf w d :
  recognizer w = Some d ->
  valid_format wf w ->
  wave_data wf = [] \/ buffer_size w = 0%Z ->
  recognize_from_file (Returned wf) w =
    (Returned (get_text_default (fst (FinalResult d))),
     set_recognizer (Some (snd (FinalResult d))) w, []).
Proof.
  intros Hr Hv Hnothing.
  rewrite (recognize_from_file_valid Hr Hv). unfold recognized_text.
  rewrite (file_chunks_nothing Hnothing). simpl.
  destruct (FinalResult d) as [final_result d']. simpl.
  unfold append_text, get_text_default.
  destruct (text final_result) as [s|]; [|reflexivity].
  destruct s; reflexivity.
Qed.

(** X15.  [recognize_from_audio] never raises, logs nothing and
    dispatches nothing.  Without a recognizer it returns the error dict
    and changes nothing.  With one it returns the final result when the
    decoder accepts the buffer and the partial result otherwise, and moves
    the decoder, and nothing else, exactly as a turn of the worker on that
    buffer would. *)
Theorem single_buffer_recognition (audio_data : bytes) w :
  events (recognize_from_audio audio_data w) = [] /\
  (recognizer w = None ->
   recognize_from_audio audio_data w =
     (Returned (ErrorDict "Recognizer not initialized"), w, [])) /\
  (forall d,
      recognizer w = Some d ->
      outcome (recognize_from_audio audio_data w) =
        Returned (ResultDict
                    (let '(accepted, d1) := AcceptWaveform d audio_data in
                     if (accepted : bool) then fst (Result d1)
                     else fst (PartialResult d1))) /\
      final (recognize_from_audio audio_data w) =
        set_recognizer (Some (decoder_step d audio_data)) w /\
      recognizer (final (recognize_from_audio audio_data w)) =
        recognizer (final (process_audio_step
                             None (set_audio_queue [audio_data] w)))).
Proof.
  destruct (recognizer w) as [d|] eqn:Hr.
  - assert (Hturn : recognizer (final (process_audio_step
                                         None (set_audio_queue [audio_data] w)))
                    = Some (decoder_step d audio_data)).
    { assert (Hnone : @transparent_callback Handler D None)
        by (intros cb r0 w0 Hc; discriminate).
      destruct (process_audio_step_state
                  (set_audio_queue [audio_data] w) Hnone) as [_ Hstep].
      simpl in Hstep. destruct Hstep as [_ Hrec]. rewrite Hr in Hrec.
      exact Hrec. }
    assert (Hrun : recognize_from_audio audio_data w =
                     (Returned (ResultDict
                        (let '(accepted, d1) := AcceptWaveform d audio_data in
                         if (accepted : bool) then fst (Result d1)
                         else fst (PartialResult d1))),
                      set_recognizer (Some (decoder_step d audio_data)) w, [])).
    { unfold recognize_from_audio, decoder_step.
      unfold bind at 1, gets at 1. simpl. rewrite Hr.
      destruct (AcceptWaveform d audio_data) as [[|] d1];
        [destruct (Result d1) | destruct (PartialResult d1)]; reflexivity. }
    rewrite Hrun. unfold outcome, events. simpl.
    split; [reflexivity|]. split; [discriminate|].
    intros d0 [= <-]. rewrite Hturn. unfold final. simpl. auto.
  - assert (Hrun : recognize_from_audio audio_data w =
                     (Returned (ErrorDict "Recognizer not initialized"), w, [])).
    { unfold recognize_from_audio. unfold bind at 1, gets at 1. simpl.
      now rewrite Hr. }
    rewrite Hrun. split; [reflexivity|]. split; [reflexivity|].
    intros d [=].
Qed.

End RecognitionMore.

(** * Construction *)
Section ConstructionMore.

Context {Handler : Type} {D : Type} `{KaldiRecognizer D} {Model : Type}.
Local Abbreviation World := (World Handler D).
Local Abbreviation M := (M Handler D).
Variable pf : Platform D Model.

Lemma first_model_found paths p :
  first_model pf paths = Some p -> In p paths /\ model_at pf p = true.
Proof.
  unfold model_at. induction paths as [|path rest IH]; simpl; [discriminate|].
  destruct (path_exists pf path && path_exists pf (path ++ "/am")%string)
    eqn:E.
  - intros [= <-]. auto.
  - intros Hf. destruct (IH Hf). auto.
Qed.

Lemma first_model_none paths :
  first_model pf paths = None <->
  Forall (fun p => model_at pf p = false) paths.
Proof.
  unfold model_at. induction paths as [|path rest IH]; simpl.
  - split; [constructor | reflexivity].
  - destruct (path_exists pf path && path_exists pf (path ++ "/am")%string)
      eqn:E.
    + split; [discriminate|]. intros Hall. inversion Hall. congruence.
    + rewrite IH. split; [now constructor|]. intros Hall. now inversion Hall.
Qed.

Lemma truthy_append a b : truthy b = true -> truthy (a ++ b)%string = true.
Proof. destruct a; simpl; auto. Qed.

Lemma possible_paths_truthy p : In p (possible_paths pf) -> truthy p = true.
Proof.
  unfold possible_paths. simpl.
  intros [<-|[<-|[<-|[<-|[]]]]]; try reflexivity; now apply truthy_append.
Qed.

(** The search stops at the first location that qualifies. *)
Lemma first_model_split paths before p after :
  paths = before ++ p :: after ->
  model_at pf p = true ->
  Forall (fun p' => model_at pf p' = false) before ->
  first_model pf paths = Some p.
Proof.
  unfold model_at. intros -> Hat Hbefore.
  induction Hbefore as [|p0 before Hp0 _ IH]; simpl.
  - now rewrite Hat.
  - now rewrite Hp0.
Qed.

(** X16.  Built without a model path on a machine where the decoder
    library is present and loads what it is given, the object always
    comes into being, idle; it has a recognizer exactly when one of the
    four default locations exists with its [am] directory.  The model
    loaded is the one at the first such location in the search order:
    when a location qualifies and none of those searched before it does,
    that location is the one logged and the recognizer is built on the
    model loaded from it, whatever stands at the locations after it.
    When no location qualifies, the warning is logged and there is no
    recognizer. *)
Theorem default_model_search (rate bufsize : Z) :
  VOSK_AVAILABLE pf = true ->
  (forall p, exists model, vosk_Model pf p = Returned model) ->
  exists (w : World) log,
    VoiceRecognition__init__ pf None rate bufsize = (Returned w, log) /\
    Idle w /\
    (recognizer w <> None <->
     Exists (fun p => model_at pf p = true) (possible_paths pf)) /\
    (forall before p after,
        possible_paths pf = before ++ p :: after ->
        model_at pf p = true ->
        Forall (fun p' => model_at pf p' = false) before ->
        log = [(INFO, LoadingModelFrom p); (INFO, VoiceRecognitionInitialized)] /\
        exists model,
          vosk_Model pf p = Returned model /\
          recognizer w =
            Some (SetWords pf (vosk_KaldiRecognizer pf model rate) true)) /\
    (Forall (fun p => model_at pf p = false) (possible_paths pf) ->
     log = [(WARNING, ModelNotFound); (INFO, VoiceRecognitionInitialized)] /\
     recognizer w = None).
Proof.
  intros Hav Hload. unfold VoiceRecognition__init__. rewrite Hav. simpl.
  destruct (_find_model pf) as [p|] eqn:Hfind.
  - pose proof Hfind as Hfound. unfold _find_model in Hfound.
    apply first_model_found in Hfound. destruct Hfound as [Hin Hat].
    rewrite (possible_paths_truthy Hin).
    assert (Hex : path_exists pf p = true).
    { unfold model_at in Hat. now apply andb_true_iff in Hat. }
    rewrite Hex. simpl. destruct (Hload p) as [model Hmodel]. rewrite Hmodel.
    eexists. eexists. split; [reflexivity|].
    split; [split; reflexivity|]. split; [|split].
    + split; [|discriminate]. intros _. apply Exists_exists. eauto.
    + intros before p' after Hsplit Hat' Hbefore.
      assert (Hp : Some p = Some p').
      { rewrite <- Hfind. unfold _find_model.
        eapply first_model_split; eassumption. }
      injection Hp as <-. split; [reflexivity|].
      exists model. split; [exact Hmodel | reflexivity].
    + intros Hnone. exfalso. rewrite Forall_forall in Hnone.
      rewrite (Hnone p Hin) in Hat. discriminate.
  - eexists. eexists. split; [reflexivity|].
    split; [split; reflexivity|]. split; [|split].
    + split; [intros Hne; now contradiction Hne|].
      intros Hex. exfalso. apply Exists_exists in Hex.
      destruct Hex as (p & Hin & Hat).
      unfold _find_model in Hfind. apply first_model_none in Hfind.
      rewrite Forall_forall in Hfind. rewrite (Hfind p Hin) in Hat.
      discriminate.
    + intros before p after Hsplit Hat Hbefore. exfalso.
      assert (Hp : first_model pf (possible_paths pf) = Some p)
        by (eapply first_model_split; eassumption).
      unfold _find_model in Hfind. congruence.
    + intros _. split; reflexivity.
Qed.

(** X17.  A model path given explicitly is never replaced by a default
    location: when it is empty or does not exist, whatever models are
    installed elsewhere, the object is built without a recognizer, with
    one warning.  On that object [start_listening] only logs its error,
    file recognition returns the empty string, whatever the file and
    whether or not it could be opened, and single-buffer recognition the
    error dict, all without changing anything. *)
Theorem explicit_missing_model_no_fallback
        (p : string) (rate bufsize : Z)
        (callback : option (RecognitionResult -> M unit))
        (opened : Outcome Wave_read) (audio_data : bytes) :
  VOSK_AVAILABLE pf = true ->
  truthy p && path_exists pf p = false ->
  let w : World := init rate bufsize None (capture_device_ok pf) in
  VoiceRecognition__init__ pf (Some p) rate bufsize =
    (Returned w, [(WARNING, ModelNotFound); (INFO, VoiceRecognitionInitialized)]) /\
  start_listening callback w =
    (Returned tt, w, [Log ERROR RecognizerNotInitialized]) /\
  recognize_from_file opened w = (Returned EmptyString, w, []) /\
  recognize_from_audio audio_data w =
    (Returned (ErrorDict "Recognizer not initialized"), w, []).
Proof.
  intros Hav Hmiss w. unfold VoiceRecognition__init__.
  rewrite Hav, Hmiss. simpl. repeat split.
Qed.

End ConstructionMore.

(** * The further properties on a concrete session *)
Section TourRuns.

Import Byte Session Tour.

Lemma registry_stays_case_folded_witness :
  registry_ok (commands fresh) /\
  PyDict.keys (commands (register_all [("Status", "first"); ("HELP", "second");
                                       ("status", "third")] fresh))
    = ["status"; "help"] /\
  registry_ok (commands (register_all [("Status", "first"); ("HELP", "second");
                                       ("status", "third")] fresh)).
Proof.
  assert (Hok : registry_ok (commands fresh))
    by (split; simpl; constructor).
  split; [exact Hok|]. split; [reflexivity|].
  exact (proj1 (@registry_stays_case_folded string nat
                  [("Status", "first"); ("HELP", "second"); ("status", "third")]
                  fresh Hok)).
Defined.

Lemma register_leaves_other_texts_witness :
  str_in (lower "Status") (normalize (get_text_default (heard "hello spoky")))
    = false /\
  events (process_result call (heard "hello spoky")
            (final (register_command "Status" "report" registered)))
    = events (process_result call (heard "hello spoky") registered).
Proof.
  split; [reflexivity|].
  apply (@register_leaves_other_texts string nat call "Status" "report"
           (heard "hello spoky") registered).
  reflexivity.
Defined.

Lemma fired_handler_is_registered_witness :
  fired (events (process_result call (heard "say Goodbye Spoky") registered))
    = ["goodbye"] /\
  exists command,
    In (command, "goodbye") (PyDict.items (commands registered)) /\
    str_in command (normalize (get_text_default (heard "say Goodbye Spoky")))
      = true.
Proof.
  apply (@fired_handler_is_registered string nat call
           (heard "say Goodbye Spoky") registered "goodbye").
  vm_compute. now left.
Defined.

Lemma dispatch_fires_or_logs_no_match_witness :
  fired (events (process_result call (heard "banana") registered)) = [] <->
  In (Log INFO (NoCommandFound "banana"))
     (events (process_result call (heard "banana") registered)).
Proof.
  assert (Hne : normalize (get_text_default (heard "banana")) <> EmptyString)
    by (vm_compute; discriminate).
  exact (proj1 (@dispatch_fires_or_logs_no_match string nat call
                  (heard "banana") registered Hne)).
Defined.

Lemma agent_dispatch_table_witness :
  fired (events (process_result
                   (fun _ w => (Returned tt, w))
                   (heard "Help me with the status")
                   (snd (fst (_register_voice_commands
                                true (init 16000 4000 (Some 0%nat) true))))))
    = [cmd_status].
Proof.
  exact (@agent_dispatch_table nat (fun _ w => (Returned tt, w))
           (heard "Help me with the status")
           (init 16000 4000 (Some 0%nat) true) eq_refl).
Defined.

Lemma start_then_stop_releases_witness :
  Idle fresh /\
  final (stop_listening (final (start_listening None fresh)))
    = set_thread (Some 0%nat) 1%nat fresh.
Proof.
  assert (Hidle : Idle fresh) by (split; reflexivity).
  split; [exact Hidle|].
  destruct (@start_then_stop_releases string nat None fresh 0%nat
              eq_refl Hidle eq_refl) as [_ Hstop].
  now rewrite Hstop.
Defined.

Lemma stop_recovers_failed_start_witness :
  input_device_ok (audio no_device) = false /\
  final (stop_listening (final (start_listening None no_device))) = no_device.
Proof.
  split; [reflexivity|].
  destruct (@stop_recovers_failed_start string nat None no_device 0%nat
              eq_refl (conj eq_refl eq_refl) eq_refl) as [Hstop _].
  now rewrite Hstop.
Defined.

Lemma at_most_one_stream_witness :
  (open_streams (audio (controller_run client (init 16000 2 (Some 0%nat) true)))
   <= 1)%nat.
Proof.
  exact (proj1 (@at_most_one_stream string nat 16000%Z 2%Z (Some 0%nat) true
                  client)).
Defined.

Lemma worker_ends_only_on_base_exception_witness :
  process_audio_step (Some (process_result failing)) two_frames =
    (Returned tt, set_recognizer (Some 1%nat)
                    (set_audio_queue [[x02; x03]] started),
     [Log INFO (RecognitionResultMsg (heard "hello spoky"));
      Callback (heard "hello spoky");
      Log INFO (ProcessingCommand "hello spoky");
      Log INFO (ExecutingCommand "hello spoky");
      Invoke "hello";
      Log ERROR (ErrorProcessingAudio (Exc "RuntimeError"))]) /\
  process_audio_step (Some (process_result timing_out)) two_frames =
    (Returned tt, set_recognizer (Some 1%nat)
                    (set_audio_queue [[x02; x03]] started),
     [Log INFO (RecognitionResultMsg (heard "hello spoky"));
      Callback (heard "hello spoky");
      Log INFO (ProcessingCommand "hello spoky");
      Log INFO (ExecutingCommand "hello spoky");
      Invoke "hello"]) /\
  process_audio_step (Some (process_result exiting)) two_frames =
    (Raised (Exc "SystemExit"),
     set_recognizer (Some 1%nat) (set_audio_queue [[x02; x03]] started),
     [Log INFO (RecognitionResultMsg (heard "hello spoky"));
      Callback (heard "hello spoky");
      Log INFO (ProcessingCommand "hello spoky");
      Log INFO (ExecutingCommand "hello spoky");
      Invoke "hello"]).
Proof.
  split; [|split].
  - destruct (@worker_ends_only_on_base_exception string nat scripted
                (Some (process_result failing))) as (_ & _ & Hturn).
    exact (Hturn two_frames [x00; x01] [[x02; x03]] 0%nat 1%nat
                 (heard "hello spoky") 1%nat (process_result failing)
                 (Exc "RuntimeError") _ _
                 eq_refl eq_refl eq_refl eq_refl eq_refl eq_refl eq_refl).
  - destruct (@worker_ends_only_on_base_exception string nat scripted
                (Some (process_result timing_out))) as (_ & _ & Hturn).
    exact (Hturn two_frames [x00; x01] [[x02; x03]] 0%nat 1%nat
                 (heard "hello spoky") 1%nat (process_result timing_out)
                 (Exc "queue.Empty") _ _
                 eq_refl eq_refl eq_refl eq_refl eq_refl eq_refl eq_refl).
  - destruct (@worker_ends_only_on_base_exception string nat scripted
                (Some (process_result exiting))) as (_ & _ & Hturn).
    exact (Hturn two_frames [x00; x01] [[x02; x03]] 0%nat 1%nat
                 (heard "hello spoky") 1%nat (process_result exiting)
                 (Exc "SystemExit") _ _
                 eq_refl eq_refl eq_refl eq_refl eq_refl eq_refl eq_refl).
Defined.



(** A handler that leaves the interpreter ends the worker at its first
    result, though as a callback the router leaves queue, decoder and flag
    alone: the frame scheduled for the second wait is never seen by this
    worker, so the frames decoded and queued at the end do not make up
    those of the whole schedule. *)
Example killed_worker_leaves_schedule_unrun :
  let schedule := [[]; [Capture [x09] 0]] in
  let run := _process_audio (Some (process_result exiting)) schedule
                            two_frames in
  outcome run = Raised (Exc "SystemExit") /\
  recognizer (final run) = Some 1%nat /\
  audio_queue (final run) = [[x02; x03]] /\
  ~ exists decoded,
      decoded ++ audio_queue (final run)
        = audio_queue two_frames ++ captured schedule.
Proof.
  cbv zeta. split; [reflexivity|]. split; [reflexivity|].
  split; [reflexivity|].
  intros [decoded Heq].
  change (decoded ++ [[x02; x03]] = [[x00; x01]; [x02; x03]; [x09]]) in Heq.
  apply (f_equal (@rev bytes)) in Heq. rewrite rev_app_distr in Heq.
  simpl in Heq. discriminate.
Qed.

Lemma recognized_phrase_fires_in_turn_witness :
  fired (events (process_audio_step (Some (process_result call)) two_frames))
    = ["hello"] /\
  outcome (process_audio_step (Some (process_result call)) two_frames)
    = Returned tt /\
  (outcome (process_audio_step (Some (process_result exiting)) two_frames)
     = Raised (Exc "SystemExit") /\
   ~ In (Log ERROR (ErrorProcessingAudio (Exc "SystemExit")))
        (events (process_audio_step (Some (process_result exiting))
                                    two_frames))).
Proof.
  assert (Hne : normalize (get_text_default (heard "hello spoky")) <> EmptyString)
    by (vm_compute; discriminate).
  destruct (@recognized_phrase_fires_in_turn string nat scripted call
              two_frames [x00; x01] [[x02; x03]] 0%nat 1%nat
              (heard "hello spoky") 1%nat "hello"
              eq_refl eq_refl eq_refl eq_refl Hne eq_refl)
    as (_ & Hfired & _ & Hreturns & _).
  split; [exact Hfired|]. split; [apply Hreturns; reflexivity|].
  destruct (@recognized_phrase_fires_in_turn string nat scripted exiting
              two_frames [x00; x01] [[x02; x03]] 0%nat 1%nat
              (heard "hello spoky") 1%nat "hello"
              eq_refl eq_refl eq_refl eq_refl Hne eq_refl)
    as (_ & _ & _ & _ & Hraises).
  destruct (Hraises (Exc "SystemExit") eq_refl) as (_ & _ & Hexit).
  apply Hexit. reflexivity.
Defined.

Lemma file_recognition_touches_only_decoder_witness :
  recognize_from_file (Raised (Exc "FileNotFoundError")) fresh
    = (Raised (Exc "FileNotFoundError"), fresh, []) /\
  recognize_from_file (Raised (Exc "FileNotFoundError")) no_model
    = (Returned EmptyString, no_model, []) /\
  set_recognizer (recognizer fresh)
                 (final (recognize_from_file (Returned mono) fresh)) = fresh.
Proof.
  split; [|split].
  - destruct (@file_recognition_touches_only_decoder string nat scripted
                (Raised (Exc "FileNotFoundError")) fresh)
      as (_ & Hraise & _).
    apply (Hraise _ eq_refl). discriminate.
  - destruct (@file_recognition_touches_only_decoder string nat scripted
                (Raised (Exc "FileNotFoundError")) no_model)
      as (_ & _ & _ & Hnone & _).
    apply Hnone. reflexivity.
  - destruct (@file_recognition_touches_only_decoder string nat scripted
                (Returned mono) fresh)
      as (_ & _ & _ & _ & _ & _ & Hkeep).
    exact Hkeep.
Defined.

Lemma nothing_fed_returns_final_text_witness :
  valid_format (mkWave 1 2 16000 []) fresh /\
  outcome (recognize_from_file (Returned (mkWave 1 2 16000 [])) fresh)
    = Returned "goodbye spoky".
Proof.
  assert (Hv : valid_format (mkWave 1 2 16000 []) fresh) by (repeat split).
  split; [exact Hv|].
  now rewrite (@nothing_fed_returns_final_text string nat scripted
                 (mkWave 1 2 16000 []) fresh 0%nat eq_refl Hv
                 (or_introl eq_refl)).
Defined.

Lemma default_model_search_witness :
  model_at workstation "/home/spoky/.cache/vosk/model" = false /\
  model_at workstation "/opt/SpokyAI/models/vosk-model" = true /\
  model_at workstation "/usr/share/vosk/model" = true /\
  exists (w : W) log,
    VoiceRecognition__init__ workstation None 16000 4000 = (Returned w, log) /\
    log = [(INFO, LoadingModelFrom "/opt/SpokyAI/models/vosk-model");
           (INFO, VoiceRecognitionInitialized)] /\
    recognizer w = Some (String.length "/opt/SpokyAI/models/vosk-model").
Proof.
  split; [reflexivity|]. split; [reflexivity|]. split; [reflexivity|].
  destruct (@default_model_search string nat nat workstation 16000%Z 4000%Z
              eq_refl (fun p => ex_intro _ (String.length p) eq_refl))
    as (w & log & Hinit & _ & _ & Hfirst & _).
  exists w, log. split; [exact Hinit|].
  assert (Hbefore : Forall (fun p' => model_at workstation p' = false)
                           ["/home/spoky/.cache/vosk/model"])
    by (repeat constructor).
  destruct (Hfirst ["/home/spoky/.cache/vosk/model"]
                   "/opt/SpokyAI/models/vosk-model"
                   ["/usr/share/vosk/model"; "vosk-model"]
                   eq_refl eq_refl Hbefore)
    as (Hlog & model & Hmodel & Hrec).
  split; [exact Hlog|]. rewrite Hrec.
  injection Hmodel as <-. reflexivity.
Defined.

Lemma explicit_missing_model_no_fallback_witness :
  _find_model machine = Some "/usr/share/vosk/model" /\
  VoiceRecognition__init__ machine (Some "/opt/models/en") 16000 4000 =
    (Returned (no_model : W),
     [(WARNING, ModelNotFound); (INFO, VoiceRecognitionInitialized)]).
Proof.
  split; [reflexivity|].
  exact (proj1 (@explicit_missing_model_no_fallback string nat scripted unit
                  machine "/opt/models/en" 16000%Z 4000%Z None
                  (Returned stereo) []
                  eq_refl eq_refl)).
Defined.

End TourRuns.

(** * A handler that stops the session *)
Section StoppingHandler.

Context {Handler : Type} {D : Type} `{KaldiRecognizer D}.
Local Abbreviation World := (World Handler D).
Local Abbreviation M := (M Handler D).
Implicit Types (w : World).

Variable call : Handler -> World -> Outcome unit * World.

(** X18.  A handler that stops the session from inside the worker ends
    the worker cleanly: when a listening pipeline decodes a registered
    phrase whose handler calls [stop_listening], the turn completes, the
    flag is down and the stream closed and forgotten when it ends, and the
    worker exits at its next check without taking another frame. *)
Theorem stopping_handler_ends_worker w data q d d1 result d2 h next rest :
  is_listening w = true ->
  audio_queue w = data :: q ->
  recognizer w = Some d ->
  AcceptWaveform d data = (true, d1) ->
  Result d1 = (result, d2) ->
  normalize (get_text_default result) <> EmptyString ->
  PyDict.get (normalize (get_text_default result)) (commands w) = Some h ->
  (forall w0, call h w0 = (outcome (stop_listening w0),
                           final (stop_listening w0))) ->
  let run := _process_audio (Some (process_result call))
                            ([] :: next :: rest) w in
  outcome run = Returned true /\
  fired (events run) = [h] /\
  final run = final (stop_listening
                       (set_recognizer (Some d2) (set_audio_queue q w))) /\
  is_listening (final run) = false /\
  stream (final run) = None /\
  audio_queue (final run) = q.
Proof.
  intros Hl Hq Hr Hacc Hres Hne Hget Hstop run.
  pose proof (@process_audio_step_exact Handler D _ call w data q d d1
                result d2 h Hq Hr Hacc Hres Hne Hget) as Hstep.
  cbv zeta in Hstep.
  set (w2 := set_recognizer (Some d2) (set_audio_queue q w)) in *.
  rewrite Hstop in Hstep. cbn [fst snd] in Hstep.
  rewrite stop_listening_returns in Hstep. unfold after_try in Hstep.
  assert (Hdown : is_listening (final (stop_listening w2)) = false)
    by apply stop_listening_clears_flag.
  subst run.
  rewrite (@process_audio_turn Handler D _ (Some (process_result call))
             [] (next :: rest) w Hl).
  cbv zeta. change (final (concurrently [] w)) with w.
  rewrite Hstep. unfold outcome at 1. cbn [fst snd].
  change (final (Returned tt, final (stop_listening w2),
                 [Log INFO (RecognitionResultMsg result); Callback result;
                  Log INFO (ProcessingCommand
                              (normalize (get_text_default result)));
                  Log INFO (ExecutingCommand
                              (normalize (get_text_default result)));
                  Invoke h]))
    with (final (stop_listening w2)).
  rewrite (@process_audio_not_listening Handler D _ _ next rest _ Hdown).
  unfold outcome, events. cbn [fst snd].
  change (final (Returned true, final (stop_listening w2),
                 @nil (Event Handler) ++
                 [Log INFO (RecognitionResultMsg result); Callback result;
                  Log INFO (ProcessingCommand
                              (normalize (get_text_default result)));
                  Log INFO (ExecutingCommand
                              (normalize (get_text_default result)));
                  Invoke h] ++ []))
    with (final (stop_listening w2)).
  split; [reflexivity|]. split; [reflexivity|]. split; [reflexivity|].
  split; [exact Hdown|].
  unfold stop_listening, w2. run. rewrite Hl. simpl.
  destruct (stream w); simpl; auto.
Qed.

End StoppingHandler.

Section StoppingRun.

Import Byte Session Tour.

Lemma stopping_handler_ends_worker_witness :
  is_listening farewell = true /\
  outcome (_process_audio (Some (process_result call)) [[]; []; []] farewell)
    = Returned true /\
  fired (events (_process_audio (Some (process_result call))
                                [[]; []; []] farewell))
    = ["goodbye"] /\
  audio_queue (final (_process_audio (Some (process_result call))
                                     [[]; []; []] farewell))
    = [[x00; x02]].
Proof.
  split; [reflexivity|].
  assert (Hne : normalize (get_text_default (heard "status")) <> EmptyString)
    by (vm_compute; discriminate).
  destruct (@stopping_handler_ends_worker string nat scripted call
              farewell [x00; x01] [[x00; x02]] 2%nat 3%nat (heard "status")
              3%nat "goodbye" [] [[]]
              eq_refl eq_refl eq_refl eq_refl eq_refl Hne eq_refl
              (fun w0 => eq_refl))
    as (Hout & Hfired & _ & _ & _ & Hqueue).
  split; [exact Hout|]. split; [exact Hfired | exact Hqueue].
Defined.

End StoppingRun.
